(** * Query execution pipeline of claude-code-sdk-ts

    A shallow embedding of the pipeline's TypeScript sources:
    - [InternalClient] (constructor, [processQuery], [executeOriginalFlow],
      [parseMessage], [buildInterceptorChain], [executeWithTimeout]),
    - the interceptor types and error classes of [interceptors.ts],
    - [SessionAwareParser] and [Session] of [fluent.ts].

    Asynchronous code is embedded as programs of a small effect monad
    ([Prog]) with a store, a virtual clock and generator yields; the
    interpreter [run] executes a program to completion. *)

From stdpp Require Import base option list strings gmap.
From Stdlib Require Import ZArith QArith DecimalString.

Local Open Scope Z_scope.

(** ** JavaScript values *)

(** Strings are truthy unless empty; [undefined] is an absent option. *)
Definition truthy (s : string) : bool := negb (String.eqb s "").

Definition truthy_opt (o : option string) : bool :=
  match o with
  | Some s => truthy s
  | None => false
  end.

(** [a || b] on an optional string with a string default. *)
Definition or_else (o : option string) (d : string) : string :=
  match o with
  | Some s => if truthy s then s else d
  | None => d
  end.

(** Decimal rendering of an integer inside a template literal. *)
Definition show_Z (z : Z) : string := NilZero.string_of_int (Z.to_int z).

(** Values stored under the keys of an options object. *)
Inductive JsValue : Type :=
| JUndefined
| JBool (b : bool)
| JNum (n : Z)
| JStr (s : string)
| JList (l : list string).

(** A property of an object literal: not written, written as [undefined],
    or written with a value. Spreading copies the last two. *)
Inductive Field (A : Type) : Type :=
| Missing
| Undefined
| Value (a : A).
Arguments Missing {A}.
Arguments Undefined {A}.
Arguments Value {A} a.

Definition get {A} (f : Field A) : option A :=
  match f with
  | Value a => Some a
  | _ => None
  end.

Definition spread_field {A} (base over : Field A) : Field A :=
  match over with
  | Missing => base
  | _ => over
  end.

(** [ClaudeCodeOptions] is a plain object used as a bag of optional keys. *)
Abbreviation ClaudeCodeOptions := (gmap string JsValue).

(** Object spread [{...a, ...b}]: keys of [b] win. *)
Definition spread (a b : ClaudeCodeOptions) : ClaudeCodeOptions := b ∪ a.

(** ** Error objects *)

Inductive ErrorClass : Type :=
| ErrorC
| ReferenceErrorC
| InterceptorTimeoutErrorC
| InterceptorChainErrorC
| TypedErrorC (kind : string).

Record JsError : Type := mkError {
  cls : ErrorClass;
  name : string;
  message : string;
  stack : string
}.

Inductive Completion (A : Type) : Type :=
| Normal (a : A)
| Thrown (e : JsError).
Arguments Normal {A} a.
Arguments Thrown {A} e.

(** ** Messages and raw CLI records *)

Inductive ContentBlock : Type :=
| TextBlock (text : string)
| ToolUseBlock (id tool : string) (input : string)
| ToolResultBlock (tool_use_id : string) (output : string) (is_error : bool).

Abbreviation Usage := (list (string * Z)).

Record Cost : Type := { total_cost : option Q }.

Record SystemData : Type := { data_session_id : option string }.

Inductive Message : Type :=
| AssistantMessage (content : list ContentBlock) (session_id : option string)
| ResultMessage (subtype : option string) (content : string)
    (session_id : option string) (usage : option Usage) (cost : Cost)
| SystemMessage (subtype : option string) (data : option SystemData)
    (session_id : option string)
| UserMessage (content : string) (session_id : option string).

(** [msg.session_id] on any variant. *)
Definition msg_session_id (m : Message) : option string :=
  match m with
  | AssistantMessage _ sid => sid
  | ResultMessage _ _ sid _ _ => sid
  | SystemMessage _ _ sid => sid
  | UserMessage _ sid => sid
  end.

Module CLI.

(** The nested message of an assistant record; [role] and [model] are
    wrapper-only fields. *)
Record AssistantPayload : Type := {
  role : string;
  model : option string;
  content : list ContentBlock
}.

Record CostField : Type := { total_cost_usd : option Q }.

Record ErrorDetail : Type := {
  message : option string;
  code : option string
}.

(** One line of the CLI's output, decoded. The discriminator is an
    arbitrary string; every other field may be absent. *)
Record Output : Type := {
  type : string;
  subtype : option string;
  payload : option AssistantPayload;   (* the record's [message] field *)
  text : option string;                (* the record's [content] field *)
  session_id : option string;
  usage : option Usage;
  cost : option CostField;
  error : option ErrorDetail
}.

End CLI.

(** ** Collaborators outside the embedded sources

    [errors.ts] and the subprocess transport are taken as parameters. *)

Record ProcessBehaviour : Type := {
  spawn_failure : option JsError;     (* [connect()] rejects with this *)
  records : list CLI.Output;          (* what [receiveMessages()] yields *)
  stream_failure : option JsError     (* thrown after the last record *)
}.

Record Env : Type := {
  detectErrorType : string -> string;
  createTypedError : string -> string -> option CLI.ErrorDetail -> JsError;
  subprocess : string -> ClaudeCodeOptions -> ProcessBehaviour;
  loadSafeEnvironmentOptions : ClaudeCodeOptions;
  applyEnvironmentOptions :
    ClaudeCodeOptions -> ClaudeCodeOptions -> ClaudeCodeOptions;
  captureStack : string -> string         (* the stack of a fresh [Error] *)
}.

(** ** Output Normalizer *)

Section Normalizer.

Variable env : Env.

Definition parseMessage (output : CLI.Output) : Completion (option Message) :=
  if String.eqb (CLI.type output) "assistant" then
    match CLI.payload output with
    | Some assistantMsg =>
        Normal (Some (AssistantMessage (CLI.content assistantMsg)
                                       (CLI.session_id output)))
    | None =>
        Normal (Some (AssistantMessage [] (CLI.session_id output)))
    end
  else if String.eqb (CLI.type output) "system" then
    Normal None
  else if String.eqb (CLI.type output) "result" then
    Normal (Some (ResultMessage
                    (CLI.subtype output)
                    (or_else (CLI.text output) "")
                    (CLI.session_id output)
                    (CLI.usage output)
                    {| total_cost := CLI.cost output ≫= CLI.total_cost_usd |}))
  else if String.eqb (CLI.type output) "error" then
    let errorMessage :=
      or_else (CLI.error output ≫= CLI.message) "Unknown error" in
    let errorType := detectErrorType env errorMessage in
    Thrown (createTypedError env errorType errorMessage (CLI.error output))
  else
    Normal None.

End Normalizer.

(** ** Interceptor context objects *)

Module Ctx.

Record Metrics : Type := {
  startTime : option Z;
  endTime : option Z;
  tokenCount : option Z;
  latency : option Z
}.

(** The fixed core of [InterceptorContext] plus the open-ended keys. *)
Record t : Type := {
  requestId : option string;
  sessionId : option string;
  correlationId : option string;
  timestamp : option Z;
  metadata : gmap string JsValue;
  category : option string;
  complexity : option string;
  suggestedModel : option string;
  metrics : option Metrics;
  extra : gmap string JsValue
}.

Definition with_correlationId (v : option string) (c : t) : t :=
  {| requestId := requestId c; sessionId := sessionId c;
     correlationId := v; timestamp := timestamp c;
     metadata := metadata c; category := category c;
     complexity := complexity c; suggestedModel := suggestedModel c;
     metrics := metrics c; extra := extra c |}.

Definition with_requestId (v : option string) (c : t) : t :=
  {| requestId := v; sessionId := sessionId c;
     correlationId := correlationId c; timestamp := timestamp c;
     metadata := metadata c; category := category c;
     complexity := complexity c; suggestedModel := suggestedModel c;
     metrics := metrics c; extra := extra c |}.

Definition with_timestamp (v : option Z) (c : t) : t :=
  {| requestId := requestId c; sessionId := sessionId c;
     correlationId := correlationId c; timestamp := v;
     metadata := metadata c; category := category c;
     complexity := complexity c; suggestedModel := suggestedModel c;
     metrics := metrics c; extra := extra c |}.

End Ctx.

(** Context objects are passed by reference: a reference is an index into
    the store's heap. *)
Abbreviation CtxRef := nat.

(** ** The store and the effect monad *)

(** Ghost events, recorded in chronological order. [EvSpawn], [EvDisconnect]
    stand for the transport's calls, [EvTerminal] marks an entry into the
    final handler; [EvEnter] and [EvExit] are written by instrumented
    interceptors. *)
Inductive Event : Type :=
| EvSpawn (prompt : string) (options : ClaudeCodeOptions)
| EvDisconnect
| EvTerminal (prompt : string)
| EvEnter (i : nat) (prompt : string)
| EvExit (i : nat).

(** A timer set with [setTimeout]: the time at which it was set, the delay
    passed to it, and what its callback does when the host runs it. How the
    host rounds or clamps the delay is not modelled; nothing below depends
    on when a timer is run. An exception that a callback throws is caught by
    nobody; what the host does with it is not the program's, and the
    interpreter below follows the program only. *)
Record Timer : Type := {
  armedAt : Z;
  delay : Z;
  callback : Completion unit
}.

Record Store : Type := {
  this_prompt : string;                 (* [this.prompt] *)
  this_options : ClaudeCodeOptions;     (* [this.options] *)
  heap : list Ctx.t;                    (* allocated context objects *)
  entropy : list string;                (* successive random tags *)
  timers : list Timer;                  (* timers set and never cleared *)
  trace : list Event
}.

Definition set_prompt (p : string) (s : Store) : Store :=
  {| this_prompt := p; this_options := this_options s; heap := heap s;
     entropy := entropy s; timers := timers s;
     trace := trace s |}.

Definition set_options (o : ClaudeCodeOptions) (s : Store) : Store :=
  {| this_prompt := this_prompt s; this_options := o; heap := heap s;
     entropy := entropy s; timers := timers s;
     trace := trace s |}.

Definition set_heap (h : list Ctx.t) (s : Store) : Store :=
  {| this_prompt := this_prompt s; this_options := this_options s; heap := h;
     entropy := entropy s; timers := timers s;
     trace := trace s |}.

Definition set_entropy (r : list string) (s : Store) : Store :=
  {| this_prompt := this_prompt s; this_options := this_options s;
     heap := heap s; entropy := r; timers := timers s;
     trace := trace s |}.

Definition log (ev : Event) (s : Store) : Store :=
  {| this_prompt := this_prompt s; this_options := this_options s;
     heap := heap s; entropy := entropy s;
     timers := timers s; trace := trace s ++ [ev] |}.

Definition arm (timer : Timer) (s : Store) : Store :=
  {| this_prompt := this_prompt s; this_options := this_options s;
     heap := heap s; entropy := entropy s;
     timers := timers s ++ [timer]; trace := trace s |}.

(** The store together with the wall clock, which programs can read and
    let pass but not set. *)
Record World : Type := {
  store : Store;
  now : Z
}.

Definition upd (f : Store -> Store) (w : World) : World :=
  {| store := f (store w); now := now w |}.

Definition tick (d : Z) (w : World) : World :=
  {| store := store w; now := now w + Z.max 0 d |}.

(** A program is a tree of effects: reading and updating the store,
    reading the clock ([Date.now()]), awaiting a timer of [d] milliseconds,
    yielding a value to the consumer (generators), returning and throwing.
    A promise is a program that never yields. *)
Inductive Prog (Y A : Type) : Type :=
| Ret (a : A)
| Throw (e : JsError)
| Read (k : Store -> Prog Y A)
| Modify (f : Store -> Store) (k : Prog Y A)
| Now (k : Z -> Prog Y A)
| Sleep (d : Z) (k : Prog Y A)
| Yield (y : Y) (k : Prog Y A).
Arguments Ret {Y A} a.
Arguments Throw {Y A} e.
Arguments Read {Y A} k.
Arguments Modify {Y A} f k.
Arguments Now {Y A} k.
Arguments Sleep {Y A} d k.
Arguments Yield {Y A} y k.

Abbreviation Promise A := (Prog Empty_set A).

Fixpoint bind {Y A B} (p : Prog Y A) (k : A -> Prog Y B) : Prog Y B :=
  match p with
  | Ret a => k a
  | Throw e => Throw e
  | Read f => Read (fun s => bind (f s) k)
  | Modify f p' => Modify f (bind p' k)
  | Now f => Now (fun t => bind (f t) k)
  | Sleep d p' => Sleep d (bind p' k)
  | Yield y p' => Yield y (bind p' k)
  end.

#[global] Instance Prog_ret {Y} : MRet (Prog Y) := fun _ a => Ret a.
#[global] Instance Prog_bind {Y} : MBind (Prog Y) := fun _ _ k p => bind p k.

Definition Emit {Y} (ev : Event) : Prog Y unit := Modify (log ev) (Ret tt).

(** A program that completes at once as given. *)
Definition liftCompletion {Y A} (c : Completion A) : Prog Y A :=
  match c with
  | Normal a => Ret a
  | Thrown e => Throw e
  end.

(** [try { p } catch (error) { h error }] *)
Fixpoint tryCatch {Y A} (p : Prog Y A) (h : JsError -> Prog Y A) : Prog Y A :=
  match p with
  | Ret a => Ret a
  | Throw e => h e
  | Read f => Read (fun s => tryCatch (f s) h)
  | Modify f p' => Modify f (tryCatch p' h)
  | Now f => Now (fun t => tryCatch (f t) h)
  | Sleep d p' => Sleep d (tryCatch p' h)
  | Yield y p' => Yield y (tryCatch p' h)
  end.

(** [try { p } finally { fin }] *)
Definition tryFinally {Y A} (p : Prog Y A) (fin : Prog Y unit) : Prog Y A :=
  a ← tryCatch p (fun e => fin ;; Throw e); fin ;; Ret a.

(** [await p] inside a generator: a promise has no yields of its own. *)
Fixpoint await {Y A} (p : Promise A) : Prog Y A :=
  match p with
  | Ret a => Ret a
  | Throw e => Throw e
  | Read f => Read (fun s => await (f s))
  | Modify f p' => Modify f (await p')
  | Now f => Now (fun t => await (f t))
  | Sleep d p' => Sleep d (await p')
  | Yield y _ => match y with end
  end.

(** [for await (const y of g) { body y }], driven to exhaustion. *)
Fixpoint forAwait {Y Y'} (g : Prog Y unit) (body : Y -> Prog Y' unit)
  : Prog Y' unit :=
  match g with
  | Ret _ => Ret tt
  | Throw e => Throw e
  | Read f => Read (fun s => forAwait (f s) body)
  | Modify f g' => Modify f (forAwait g' body)
  | Now f => Now (fun t => forAwait (f t) body)
  | Sleep d g' => Sleep d (forAwait g' body)
  | Yield y g' => body y ;; forAwait g' body
  end.

(** The interpreter: the completion, the values yielded in order, and the
    final world. *)
Fixpoint run {Y A} (p : Prog Y A) (w : World)
  : Completion A * list Y * World :=
  match p with
  | Ret a => (Normal a, [], w)
  | Throw e => (Thrown e, [], w)
  | Read f => run (f (store w)) w
  | Modify f p' => run p' (upd f w)
  | Now f => run (f (now w)) w
  | Sleep d p' => run p' (tick d w)
  | Yield y p' =>
      let '(c, ys, w') := run p' w in (c, y :: ys, w')
  end.

(** ** Interceptors *)

Record InterceptorRequest : Type := {
  prompt : string;
  options : ClaudeCodeOptions;
  originalPrompt : option string
}.

Record ResponseMetadata : Type := {
  model : option string;
  tokenCount : option Z;
  latency : option Z;
  cached : option bool
}.

(** [messages] is a generator object: a suspended program, run only when it
    is iterated. *)
Record InterceptorResponse : Type := {
  messages : Prog Message unit;
  metadata : option ResponseMetadata
}.

Definition Next : Type :=
  InterceptorRequest -> CtxRef -> Promise InterceptorResponse.

(** A function object: its [name] property and its body. *)
Record Interceptor : Type := {
  fn_name : string;
  invoke : InterceptorRequest -> CtxRef -> Next -> Promise InterceptorResponse
}.

Record InterceptorConfig : Type := {
  interceptors : Field (list Interceptor);
  debug : Field bool;
  timeout : Field Z;
  maxContextSize : Field Z
}.

(** The default argument [{}]. *)
Definition emptyConfig : InterceptorConfig :=
  {| interceptors := Missing; debug := Missing; timeout := Missing;
     maxContextSize := Missing |}.

Section Errors.

Variable env : Env.

(** [new Error(msg)] *)
Definition new_Error (msg : string) : JsError :=
  {| cls := ErrorC; name := "Error"; message := msg;
     stack := captureStack env msg |}.

(** The error of reading a name that is not bound. *)
Definition new_ReferenceError (identifier : string) : JsError :=
  let msg := identifier +:+ " is not defined" in
  {| cls := ReferenceErrorC; name := "ReferenceError"; message := msg;
     stack := captureStack env msg |}.

Definition set_stack (st : string) (e : JsError) : JsError :=
  {| cls := cls e; name := name e; message := message e; stack := st |}.

Definition new_InterceptorTimeoutError (timeout : Z) : JsError :=
  let msg := "Interceptor chain timed out after " +:+ show_Z timeout +:+ "ms" in
  {| cls := InterceptorTimeoutErrorC; name := "InterceptorTimeoutError";
     message := msg; stack := captureStack env msg |}.

Definition new_InterceptorChainError (message : string) : JsError :=
  let msg := "Interceptor chain error: " +:+ message in
  {| cls := InterceptorChainErrorC; name := "InterceptorChainError";
     message := msg; stack := captureStack env msg |}.

End Errors.

(** [error instanceof C], for a class [C] that is in scope. *)
Definition instanceof (e : JsError) (c : ErrorClass) : bool :=
  match cls e, c with
  | _, ErrorC => true
  | ReferenceErrorC, ReferenceErrorC => true
  | InterceptorTimeoutErrorC, InterceptorTimeoutErrorC => true
  | InterceptorChainErrorC, InterceptorChainErrorC => true
  | TypedErrorC k, TypedErrorC k' => String.eqb k k'
  | _, _ => false
  end.

(** ** InternalClient *)

(** The fields assigned once by the constructor. [this.prompt] and
    [this.options] are reassigned by the final handler and live in the
    store. *)
Record InternalClient : Type := {
  client_interceptors : list Interceptor;
  interceptorConfig : InterceptorConfig
}.

Section Client.

Variable env : Env.

(** The stored configuration: three defaults, then the caller's keys
    spread over them. *)
Definition defaultedConfig (interceptorConfig : InterceptorConfig)
  : InterceptorConfig :=
  {| interceptors := interceptors interceptorConfig;
     debug := spread_field (Value false) (debug interceptorConfig);
     timeout := spread_field (Value 30000) (timeout interceptorConfig);
     maxContextSize :=
       spread_field (Value (1024 * 1024)) (maxContextSize interceptorConfig) |}.

(** [new InternalClient(prompt, options, interceptorConfig)]: the object
    and the initial values of its two mutable fields. *)
Definition constructor (prompt : string) (options : ClaudeCodeOptions)
    (interceptorConfig : InterceptorConfig)
  : InternalClient * (string * ClaudeCodeOptions) :=
  let envOptions := loadSafeEnvironmentOptions env in
  ({| client_interceptors :=
        default [] (get (interceptors interceptorConfig));
      interceptorConfig := defaultedConfig interceptorConfig |},
   (prompt, applyEnvironmentOptions env options envOptions)).

(** The transport of one invocation, by its three calls. *)
Definition connect {Y} (prompt : string) (options : ClaudeCodeOptions)
  : Prog Y unit :=
  Emit (EvSpawn prompt options) ;;
  match spawn_failure (subprocess env prompt options) with
  | Some e => Throw e
  | None => Ret tt
  end.

Definition receiveMessages (prompt : string) (options : ClaudeCodeOptions)
  : Prog CLI.Output unit :=
  foldr (fun output rest => Yield output rest)
    (match stream_failure (subprocess env prompt options) with
     | Some e => Throw e
     | None => Ret tt
     end)
    (records (subprocess env prompt options)).

Definition disconnect {Y} : Prog Y unit := Emit EvDisconnect.

Variable this : InternalClient.

Definition executeOriginalFlow : Prog Message unit :=
  Read (fun st =>
    let prompt := this_prompt st in
    let options := this_options st in
    tryFinally
      (connect prompt options ;;
       forAwait (receiveMessages prompt options) (fun output =>
         match parseMessage env output with
         | Normal (Some message) => Yield message (Ret tt)
         | Normal None => Ret tt
         | Thrown e => Throw e
         end))
      disconnect).

Definition finalHandler : Next := fun request context =>
  Read (fun st =>
    let originalPrompt := this_prompt st in
    Modify (set_prompt (prompt request)) (
    Modify (fun s => set_options (spread (this_options s) (options request)) s) (
    (* ghost: the final handler is entered *)
    Emit (EvTerminal (prompt request)) ;;
    tryFinally
      (Read (fun s =>
         let messages := executeOriginalFlow in
         let metrics := heap s !! context ≫= Ctx.metrics in
         Ret {| messages := messages;
                metadata := Some {| model := None;
                                    tokenCount := metrics ≫= Ctx.tokenCount;
                                    latency := metrics ≫= Ctx.latency;
                                    cached := None |} |}))
      (Modify (set_prompt originalPrompt) (Ret tt))))).

(** The wrapper built around one interceptor by the reduction. *)
Definition guarded (interceptor : Interceptor) (next : Next) : Next :=
  fun request context =>
    tryCatch (invoke interceptor request context next) (fun error =>
      let interceptorName :=
        if truthy (fn_name interceptor) then fn_name interceptor
        else "anonymous" in
      let contextualError :=
        new_Error env ("Interceptor '" +:+ interceptorName +:+ "' failed: "
                       +:+ message error) in
      Throw (set_stack (stack error) contextualError)).

Definition buildInterceptorChain : Next :=
  if (length (client_interceptors this) =? 0)%nat then finalHandler
  else foldr (fun interceptor next => guarded interceptor next)
         finalHandler (client_interceptors this).

(** [InterceptorTimeoutError] and [InterceptorChainError] reach the client
    module through [import type] only. Such an import is erased when the
    module is built, so at run time the two names are not bound: reading
    one of them throws a [ReferenceError]. *)
Definition importedType (identifier : string) : Completion ErrorClass :=
  Thrown (new_ReferenceError env identifier).

(** The callback of the timer, [reject(new InterceptorTimeoutError(ms))]:
    the class name is read first, and that throws, so [reject] is never
    called. *)
Definition timeoutCallback (ms : Z) : Completion unit :=
  match importedType "InterceptorTimeoutError" with
  | Normal InterceptorTimeoutError => Normal tt
  | Thrown e => Thrown e
  end.

(** [Promise.race([promise, timeoutPromise])]: [timeoutPromise] settles
    only through [reject] in the timer's callback, which is never reached,
    so the race settles as [promise] does. The timer is not cleared. The
    chain was called before the timer is set; up to its first wait it ran at
    the same instant, so the timer is recorded first here. *)
Definition executeWithTimeout {A} (promise : Promise A) : Promise A :=
  match get (timeout (interceptorConfig this)) with
  | None => promise
  | Some ms =>
      if ms =? 0 then promise
      else
        Now (fun t =>
          Modify (arm {| armedAt := t; delay := ms;
                         callback := timeoutCallback ms |})
            promise)
  end.

(** [Math.random().toString(36).slice(2, 8)] *)
Definition randomTag {Y} : Prog Y string :=
  Read (fun s =>
    match entropy s with
    | [] => Ret ""
    | r :: rest => Modify (set_entropy rest) (Ret r)
    end).

Definition processQuery : Prog Message unit :=
  if (length (client_interceptors this) =? 0)%nat then executeOriginalFlow
  else
    Read (fun st =>
      let request :=
        {| prompt := this_prompt st; options := this_options st;
           originalPrompt := Some (this_prompt st) |} in
      tag ← randomTag;
      Now (fun now =>
      let fresh :=
        {| Ctx.requestId :=
             Some ("req-" +:+ show_Z now +:+ "-" +:+ tag);
           Ctx.sessionId :=
             match this_options st !! "sessionId" with
             | Some (JStr sid) => Some sid
             | _ => None
             end;
           Ctx.correlationId := None;
           Ctx.timestamp := Some now;
           Ctx.metadata := ∅;
           Ctx.category := None; Ctx.complexity := None;
           Ctx.suggestedModel := None; Ctx.metrics := None;
           Ctx.extra := ∅ |} in
      Read (fun s =>
        let context := length (heap s) in
        Modify (set_heap (heap s ++ [fresh])) (
        tryCatch
          (let chain := buildInterceptorChain in
           response ← await (executeWithTimeout (chain request context));
           forAwait (messages response) (fun message =>
             Yield message (Ret tt)))
          (fun error =>
             isTimeout ←
               (InterceptorTimeoutError ←
                  liftCompletion (importedType "InterceptorTimeoutError");
                Ret (instanceof error InterceptorTimeoutError));
             isKnown ←
               (if isTimeout : bool then Ret true
                else InterceptorChainError ←
                       liftCompletion (importedType "InterceptorChainError");
                     Ret (instanceof error InterceptorChainError));
             if isKnown : bool then Throw error
             else
               Read (fun s' =>
                 match heap s' !! context ≫= Ctx.correlationId with
                 | Some correlationId =>
                     if truthy correlationId then
                       let augmentedError :=
                         new_Error env ("[" +:+ correlationId +:+ "] "
                                        +:+ message error) in
                       Throw (set_stack (stack error) augmentedError)
                     else Throw error
                 | None => Throw error
                 end)))))).

End Client.

(** ** Stub collaborators for concrete runs *)

(** A process that spawns, emits [rs] and exits cleanly; errors are
    classified as ["generic"]. *)
Definition stubEnv (rs : list CLI.Output) : Env :=
  {| detectErrorType := fun _ => "generic";
     createTypedError := fun kind msg _ =>
       {| cls := TypedErrorC kind; name := kind; message := msg;
          stack := "" |};
     subprocess := fun _ _ =>
       {| spawn_failure := None; records := rs; stream_failure := None |};
     loadSafeEnvironmentOptions := ∅;
     applyEnvironmentOptions := fun options envOptions => spread envOptions options;
     captureStack := fun _ => "" |}.

Definition world0 (prompt : string) (options : ClaudeCodeOptions) : World :=
  {| store := {| this_prompt := prompt; this_options := options; heap := [];
                 entropy := []; timers := []; trace := [] |};
     now := 0 |}.

Definition rawRecord (type : string) : CLI.Output :=
  {| CLI.type := type; CLI.subtype := None; CLI.payload := None;
     CLI.text := None; CLI.session_id := None; CLI.usage := None;
     CLI.cost := None; CLI.error := None |}.

(** ** The Normalizer's rules *)

(** The rules of the Normalizer, one constructor per kind of record. *)
Inductive Normalized (env : Env) (output : CLI.Output)
  : Completion (option Message) -> Prop :=
| Normalized_system :
    CLI.type output = "system" ->
    Normalized env output (Normal None)
| Normalized_assistant :
    CLI.type output = "assistant" ->
    Normalized env output
      (Normal (Some (AssistantMessage
                       (from_option CLI.content [] (CLI.payload output))
                       (CLI.session_id output))))
| Normalized_result :
    CLI.type output = "result" ->
    Normalized env output
      (Normal (Some (ResultMessage
                       (CLI.subtype output)
                       (from_option id "" (CLI.text output))
                       (CLI.session_id output)
                       (CLI.usage output)
                       {| total_cost :=
                            CLI.cost output ≫= CLI.total_cost_usd |})))
| Normalized_error :
    CLI.type output = "error" ->
    let text := or_else (CLI.error output ≫= CLI.message) "Unknown error" in
    Normalized env output
      (Thrown (createTypedError env (detectErrorType env text) text
                 (CLI.error output)))
| Normalized_other :
    CLI.type output ∉ ["system"; "assistant"; "result"; "error"] ->
    Normalized env output (Normal None).

(** ** Sequencing of interpreter results *)

Definition andThen {Y A B} (r : Completion A * list Y * World)
    (k : A -> World -> Completion B * list Y * World)
  : Completion B * list Y * World :=
  match r with
  | (Normal a, ys, s) => let '(c, ys', s') := k a s in (c, ys ++ ys', s')
  | (Thrown e, ys, s) => (Thrown e, ys, s)
  end.

Definition orCatch {Y A} (r : Completion A * list Y * World)
    (h : JsError -> World -> Completion A * list Y * World)
  : Completion A * list Y * World :=
  match r with
  | (Normal a, ys, s) => (Normal a, ys, s)
  | (Thrown e, ys, s) => let '(c, ys', s') := h e s in (c, ys ++ ys', s')
  end.

(** ** The yielded sequence of the original flow *)

Definition is_error (output : CLI.Output) : bool :=
  String.eqb (CLI.type output) "error".

Definition is_system (output : CLI.Output) : bool :=
  String.eqb (CLI.type output) "system".

(** The two kinds of record that surface as messages. *)
Definition surfaced (output : CLI.Output) : bool :=
  String.eqb (CLI.type output) "assistant"
  || String.eqb (CLI.type output) "result".

(** The records emitted before the first error record. *)
Fixpoint until_error (rs : list CLI.Output) : list CLI.Output :=
  match rs with
  | [] => []
  | output :: rest =>
      if is_error output then [] else output :: until_error rest
  end.

(** The message that stands for a surfaced record. *)
Definition image (output : CLI.Output) : Message :=
  if String.eqb (CLI.type output) "assistant" then
    AssistantMessage (from_option CLI.content [] (CLI.payload output))
                     (CLI.session_id output)
  else
    ResultMessage (CLI.subtype output) (from_option id "" (CLI.text output))
                  (CLI.session_id output) (CLI.usage output)
                  {| total_cost := CLI.cost output ≫= CLI.total_cost_usd |}.

(** How the flow completes once the process has spawned: with the typed
    error of the first error record, else with the stream's own failure,
    else normally. *)
Fixpoint flow_completion (env : Env) (rs : list CLI.Output)
    (tail : option JsError) : Completion unit :=
  match rs with
  | [] => match tail with Some e => Thrown e | None => Normal tt end
  | output :: rest =>
      match parseMessage env output with
      | Thrown e => Thrown e
      | Normal _ => flow_completion env rest tail
      end
  end.

(** The reading of "no record other than system and error records is
    dropped": as many messages as such records. *)
Definition none_dropped (env : Env) (w : World) : Prop :=
  length (run (executeOriginalFlow env) w).1.2
  = length (filter (fun output => negb (is_system output || is_error output))
              (records (subprocess env (this_prompt (store w))
                          (this_options (store w))))).

(** ** Instrumented interceptors *)

(** A well-behaved interceptor: it calls [next] exactly once, with a
    request of its choosing, does not throw, and returns a response of its
    choosing. *)
Record ProbeSpec : Type := {
  probe_name : string;
  pre : InterceptorRequest -> InterceptorRequest;
  post : InterceptorResponse -> InterceptorResponse
}.

(** The probe registered at index [i] records when it is entered and when
    it returns. *)
Definition probe (i : nat) (p : ProbeSpec) : Interceptor :=
  {| fn_name := probe_name p;
     invoke := fun request context next =>
       Emit (EvEnter i (prompt request)) ;;
       response ← next (pre p request) context;
       Emit (EvExit i) ;;
       Ret (post p response) |}.

Fixpoint probes (k : nat) (ps : list ProbeSpec) : list Interceptor :=
  match ps with
  | [] => []
  | p :: rest => probe k p :: probes (S k) rest
  end.

(** An interceptor that throws [e] at once. *)
Definition thrower (fname : string) (e : JsError) : Interceptor :=
  {| fn_name := fname; invoke := fun _ _ _ => Throw e |}.

(** An interceptor that calls [next] twice and returns the second
    response. *)
Definition doubler : Interceptor :=
  {| fn_name := "doubler";
     invoke := fun request context next =>
       next request context ;; next request context |}.

(** An interceptor that waits [ms] milliseconds before calling [next]. *)
Definition sleeper (ms : Z) : Interceptor :=
  {| fn_name := "sleeper";
     invoke := fun request context next =>
       Sleep ms (next request context) |}.

(** The pre-built [correlationInterceptor]: it fills in the shared context
    object and passes the request on. *)
Definition correlationInterceptor : Interceptor :=
  {| fn_name := "correlationInterceptor";
     invoke := fun request context next =>
       Read (fun s =>
         match heap s !! context with
         | None => next request context
         | Some c =>
             tag1 ← (if truthy_opt (Ctx.correlationId c) then Ret ""
                     else randomTag);
             Now (fun t1 =>
             let c1 :=
               if truthy_opt (Ctx.correlationId c) then c
               else Ctx.with_correlationId
                      (Some ("claude-" +:+ show_Z t1 +:+ "-" +:+ tag1)) c in
             tag2 ← (if truthy_opt (Ctx.requestId c1) then Ret ""
                     else randomTag);
             Now (fun t2 =>
             let c2 :=
               if truthy_opt (Ctx.requestId c1) then c1
               else Ctx.with_requestId
                      (Some ("req-" +:+ show_Z t2 +:+ "-" +:+ tag2)) c1 in
             Now (fun t3 =>
             Modify (fun s' =>
                       set_heap (<[context := Ctx.with_timestamp (Some t3) c2]>
                                   (heap s')) s')
               (next request context))))
         end) |}.

(** The expected trace of a chain of probes, from index [k] on. *)
Fixpoint enters (k : nat) (ps : list ProbeSpec) (request : InterceptorRequest)
  : list Event :=
  match ps with
  | [] => []
  | p :: rest => EvEnter k (prompt request) :: enters (S k) rest (pre p request)
  end.

Fixpoint exits (k : nat) (ps : list ProbeSpec) : list Event :=
  match ps with
  | [] => []
  | p :: rest => exits (S k) rest ++ [EvExit k]
  end.

(** The request that reaches the innermost stage, and the response that
    leaves the outermost. *)
Definition innermost (ps : list ProbeSpec) (request : InterceptorRequest)
  : InterceptorRequest :=
  foldl (fun r p => pre p r) request ps.

Definition outward (ps : list ProbeSpec) (response : InterceptorResponse)
  : InterceptorResponse :=
  foldr (fun p r => post p r) response ps.

Definition logs (evs : list Event) (s : Store) : Store :=
  foldl (fun s' ev => log ev s') s evs.

Definition is_terminal (ev : Event) : bool :=
  match ev with
  | EvTerminal _ => true
  | _ => false
  end.

(** How many times the final handler has been entered. *)
Definition terminal_entries (tr : list Event) : nat :=
  length (filter is_terminal tr).

(** The name under which a failure is reported. *)
Definition displayName (fname : string) : string :=
  if truthy fname then fname else "anonymous".

(** The error thrown by the wrapper around the interceptor named [fname]
    when that interceptor fails with [error]. *)
Definition contextualError (env : Env) (fname : string) (error : JsError)
  : JsError :=
  set_stack (stack error)
    (new_Error env ("Interceptor '" +:+ displayName fname +:+ "' failed: "
                    +:+ message error)).

(** The same, through every enclosing probe. *)
Definition rewrapped (env : Env) (ps : list ProbeSpec) (e : JsError) : JsError :=
  foldr (fun p e' => contextualError env (probe_name p) e') e ps.

(** What the final handler returns when the context heap is [h]. *)
Definition terminalResponse (env : Env) (h : list Ctx.t) (context : CtxRef)
  : InterceptorResponse :=
  let metrics := h !! context ≫= Ctx.metrics in
  {| messages := executeOriginalFlow env;
     metadata := Some {| model := None;
                         tokenCount := metrics ≫= Ctx.tokenCount;
                         latency := metrics ≫= Ctx.latency;
                         cached := None |} |}.

(** [needle] occurs in [hay]. *)
Definition contains (needle hay : string) : Prop :=
  exists l r, hay = l +:+ needle +:+ r.

(** The reading of "the chain re-throws an error of the
    [InterceptorChainError] kind". *)
Definition rethrows_chain_error (env : Env) (this : InternalClient)
    (request : InterceptorRequest) (context : CtxRef) (w : World) : Prop :=
  exists e, (run (buildInterceptorChain env this request context) w).1.1
            = Thrown e
            /\ instanceof e InterceptorChainErrorC = true.

(** The reading of "a chain-level failure is raised before the final
    handler is entered a second time". *)
Definition second_call_fails (env : Env) (this : InternalClient)
    (request : InterceptorRequest) (context : CtxRef) (w : World) : Prop :=
  let r := run (buildInterceptorChain env this request context) w in
  (exists e, r.1.1 = Thrown e)
  /\ (terminal_entries (trace (store r.2))
      <= S (terminal_entries (trace (store w))))%nat.

Definition request0 (prompt : string) : InterceptorRequest :=
  {| prompt := prompt; options := ∅; originalPrompt := Some prompt |}.

Definition client (interceptors : list Interceptor) (cfg : InterceptorConfig)
  : InternalClient :=
  {| client_interceptors := interceptors; interceptorConfig := cfg |}.

(** ** The start of an intercepted invocation *)

(** The context object allocated by [processQuery]. *)
Definition freshContext (w : World) : Ctx.t :=
  {| Ctx.requestId :=
       Some ("req-" +:+ show_Z (now w) +:+ "-" +:+ hd "" (entropy (store w)));
     Ctx.sessionId :=
       match this_options (store w) !! "sessionId" with
       | Some (JStr sid) => Some sid
       | _ => None
       end;
     Ctx.correlationId := None;
     Ctx.timestamp := Some (now w);
     Ctx.metadata := ∅;
     Ctx.category := None; Ctx.complexity := None;
     Ctx.suggestedModel := None; Ctx.metrics := None;
     Ctx.extra := ∅ |}.

(** The world in which the chain starts: one random tag drawn, the context
    allocated at the end of the heap. *)
Definition opened (w : World) : World :=
  let s1 :=
    match entropy (store w) with
    | [] => store w
    | _ :: rest => set_entropy rest (store w)
    end in
  {| store := set_heap (heap s1 ++ [freshContext w]) s1; now := now w |}.

(** The reference of that context. *)
Definition openedContext (w : World) : CtxRef := length (heap (store w)).

(** The time a program takes from [w]. *)
Definition elapsed {Y A} (p : Prog Y A) (w : World) : Z :=
  now (run p w).2 - now w.

(** The reading of "the invocation fails with [InterceptorTimeoutError] at
    time T". *)
Definition times_out_at (env : Env) (this : InternalClient) (w : World)
    (T : Z) : Prop :=
  exists e w', run (processQuery env this) w = (Thrown e, [], w')
               /\ cls e = InterceptorTimeoutErrorC
               /\ now w' = now w + T.

Definition configWithTimeout (interceptors : list Interceptor) (T : Z)
  : InterceptorConfig :=
  {| interceptors := Value interceptors; debug := Missing; timeout := Value T;
     maxContextSize := Missing |}.

(** ** Concrete clients *)

Definition timeout50 : InternalClient :=
  (constructor (stubEnv []) "hi" ∅ (configWithTimeout [sleeper 200] 50)).1.

Definition timeout0 : InternalClient :=
  (constructor (stubEnv []) "hi" ∅ (configWithTimeout [sleeper 200] 0)).1.

Definition configWithoutTimeout (interceptors : list Interceptor)
  : InterceptorConfig :=
  {| interceptors := Value interceptors; debug := Missing; timeout := Missing;
     maxContextSize := Missing |}.

Definition boom : JsError := new_Error (stubEnv []) "boom".

Definition configWithUndefinedTimeout (interceptors : list Interceptor)
  : InterceptorConfig :=
  {| interceptors := Value interceptors; debug := Missing;
     timeout := Undefined; maxContextSize := Missing |}.

(** ** Response Consumer *)

Module Parser.

(** An async generator object as its consumer sees it: what it has still
    to yield, how it will end, and how many times an iteration of it has
    been started. Once iterated it is exhausted. *)
Record Generator : Type := {
  pending : list Message;
  failure : option JsError;
  iterations : nat
}.

Definition fresh (ms : list Message) (end_ : option JsError) : Generator :=
  {| pending := ms; failure := end_; iterations := 0 |}.

(** [for await (const m of g)] to exhaustion. *)
Definition iterate (g : Generator)
  : list Message * option JsError * Generator :=
  (pending g, failure g,
   {| pending := []; failure := None; iterations := S (iterations g) |}).

(** Modelled from the spec: [parser.ts], the class [ResponseParser], is
    not among the sources. Section 4.4: the first call of any extraction
    method drains the underlying stream into the consumed-message cache,
    later calls work on the cache; section 3: the generator is iterated at
    most once however many views are requested; the success flag is the
    absence of an error thrown during consumption. The per-message
    handlers and the logger have no part in this and are left out. *)
Record ResponseParser : Type := {
  generator : Generator;
  messages : list Message;        (* the consumed-message cache *)
  consumed : bool;
  thrown : option JsError         (* the error that ended the drain *)
}.

(** [new ResponseParser(generator, handlers, logger)] *)
Definition create (g : Generator) : ResponseParser :=
  {| generator := g; messages := []; consumed := false; thrown := None |}.

(** Modelled from the spec: [ResponseParser.consume], the one place where
    the generator is iterated. *)
Definition consume (p : ResponseParser) : Completion unit * ResponseParser :=
  if consumed p then
    (match thrown p with Some e => Thrown e | None => Normal tt end, p)
  else
    let '(ms, end_, g') := iterate (generator p) in
    (match end_ with Some e => Thrown e | None => Normal tt end,
     {| generator := g'; messages := messages p ++ ms; consumed := true;
        thrown := end_ |}).

(** The extraction methods. *)
Inductive View : Type :=
| asText
| asResult
| asArray
| asJSON
| asToolExecutions
| findToolResults (tool : string)
| findToolResult (tool : string)
| getUsage
| succeeded
| getSessionId.

Inductive Answer : Type :=
| AText (s : string)
| AResult (o : option string)
| AMessages (ms : list Message)
| AJson (v : JsValue)
| AToolUses (uses : list (string * string))
| AToolResults (outs : list string)
| AToolResult (o : option string)
| AUsage (u : option Usage) (c : option Cost)
| ASuccess (b : bool)
| ASessionId (o : option string).

Definition blocks (ms : list Message) : list ContentBlock :=
  ms ≫= fun m =>
    match m with
    | AssistantMessage content _ => content
    | _ => []
    end.

Definition assistantText (ms : list Message) : string :=
  foldr (fun b acc =>
           match b with
           | TextBlock t => t +:+ acc
           | _ => acc
           end) "" (blocks ms).

Definition is_result (m : Message) : bool :=
  match m with
  | ResultMessage _ _ _ _ _ => true
  | _ => false
  end.

Definition finalResult (ms : list Message) : option Message :=
  last (filter is_result ms).

Definition toolUses (ms : list Message) : list (string * string * string) :=
  blocks ms ≫= fun b =>
    match b with
    | ToolUseBlock id tool input => [(id, tool, input)]
    | _ => []
    end.

Definition resultsOf (tool : string) (ms : list Message) : list string :=
  blocks ms ≫= fun b =>
    match b with
    | ToolResultBlock id output _ =>
        if bool_decide (Exists (fun u => u.1.1 = id /\ u.1.2 = tool)
                          (toolUses ms))
        then [output] else []
    | _ => []
    end.

(** The first message that carries a session identifier decides. *)
Fixpoint discoveredSessionId (ms : list Message) : option string :=
  match ms with
  | [] => None
  | m :: rest =>
      if truthy_opt (msg_session_id m) then msg_session_id m
      else discoveredSessionId rest
  end.

Section Views.

(** The structured-data parser applied to the text; [None] is a parse
    failure. *)
Variable parseJSON : string -> option JsValue.

Definition parseError : JsError :=
  {| cls := TypedErrorC "ParseError"; name := "ParseError";
     message := "Failed to parse JSON"; stack := "" |}.

(** A view computed from the cache alone. *)
Definition derive (v : View) (ms : list Message) : Completion Answer :=
  match v with
  | asText => Normal (AText (assistantText ms))
  | asResult =>
      Normal (AResult (match finalResult ms with
                       | Some (ResultMessage _ content _ _ _) => Some content
                       | _ => None
                       end))
  | asArray => Normal (AMessages ms)
  | asJSON =>
      match parseJSON (assistantText ms) with
      | Some j => Normal (AJson j)
      | None => Thrown parseError
      end
  | asToolExecutions =>
      Normal (AToolUses ((fun u => (u.1.2, u.2)) <$> toolUses ms))
  | findToolResults tool => Normal (AToolResults (resultsOf tool ms))
  | findToolResult tool => Normal (AToolResult (head (resultsOf tool ms)))
  | getUsage =>
      Normal (match finalResult ms with
              | Some (ResultMessage _ _ _ u c) => AUsage u (Some c)
              | _ => AUsage None None
              end)
  | succeeded => Normal (ASuccess true)
  | getSessionId => Normal (ASessionId (discoveredSessionId ms))
  end.

(** What an extraction method returns once [consume] has settled. *)
Definition answer (v : View) (c : Completion unit) (ms : list Message)
  : Completion Answer :=
  match c with
  | Normal _ => derive v ms
  | Thrown e =>
      match v with
      | succeeded => Normal (ASuccess false)
      | _ => Thrown e
      end
  end.

(** Modelled from the spec: every extraction method awaits [consume]
    and then works on the cache. *)
Definition extract (v : View) (p : ResponseParser)
  : Completion Answer * ResponseParser :=
  let '(c, p') := consume p in (answer v c (messages p'), p').

(** A sequence of extraction calls on one instance. *)
Fixpoint extractAll (vs : list View) (p : ResponseParser)
  : list (Completion Answer) * ResponseParser :=
  match vs with
  | [] => ([], p)
  | v :: rest =>
      let '(a, p') := extract v p in
      let '(answers, p'') := extractAll rest p' in
      (a :: answers, p'')
  end.

End Views.

(** The instance after its drain of a stream [ms] that ended with
    [end_]. *)
Definition drained (ms : list Message) (end_ : option JsError)
  : ResponseParser :=
  {| generator := {| pending := []; failure := None; iterations := 1 |};
     messages := ms; consumed := true; thrown := end_ |}.

Definition completion (end_ : option JsError) : Completion unit :=
  match end_ with
  | Some e => Thrown e
  | None => Normal tt
  end.

End Parser.

(** ** Session continuation *)

Module Fluent.

Import Parser.

(** The loop of [SessionAwareParser.consume] over the cache. *)
Fixpoint scanSessionId (messages : list Message) : option string :=
  match messages with
  | [] => None
  | msg :: rest =>
      if truthy_opt (msg_session_id msg) then msg_session_id msg
      else
        match msg with
        | SystemMessage _ (Some data) _ =>
            if truthy_opt (data_session_id data) then data_session_id data
            else scanSessionId rest
        | _ => scanSessionId rest
        end
  end.

(** The fields of a [Session] that [query] touches. *)
Record Session : Type := {
  options : ClaudeCodeOptions;
  sessionId : option string
}.

(** The callback handed to a [SessionAwareParser]. *)
Definition onSessionId (sessionId' : option string) (this : Session)
  : Session :=
  if truthy_opt sessionId'
  then {| options := options this; sessionId := sessionId' |}
  else this.

(** [SessionAwareParser.consume] *)
Definition consumeAware (p : ResponseParser) (this : Session)
  : Completion unit * ResponseParser * Session :=
  match consume p with
  | (Normal _, p') =>
      (Normal tt, p', onSessionId (scanSessionId (messages p')) this)
  | (Thrown e, p') => (Thrown e, p', this)
  end.

Inductive ParserClass : Type :=
| PlainParser
| SessionAware.

(** A parser object returned by [query], with the arguments that were
    handed to [baseQuery] for it. *)
Record ParserObject : Type := {
  class : ParserClass;
  state : ResponseParser;
  sent : string * ClaudeCodeOptions
}.

(** One session and the parser objects it has handed out, addressed by
    their index. *)
Record Heap : Type := {
  session : Session;
  objects : list ParserObject
}.

Definition start (options : ClaudeCodeOptions) : Heap :=
  {| session := {| options := options; sessionId := None |};
     objects := [] |}.

Section Queries.

(** [baseQuery] is outside the embedded sources: the generator of the
    invocation with this prompt and these options. *)
Variable baseQuery : string -> ClaudeCodeOptions -> Generator.

Variable parseJSON : string -> option JsValue.

(** [Session.query] *)
Definition query (prompt : string) (h : Heap) : nat * Heap :=
  let this := session h in
  (* First query - establish session and capture session ID *)
  let establish :=
    let generator := baseQuery prompt (options this) in
    (length (objects h),
     {| session := this;
        objects := objects h ++
          [{| class := SessionAware;
              state := create generator;
              sent := (prompt, options this) |}] |}) in
  match sessionId this with
  | Some sid =>
      if truthy sid then
        (* Use existing session for subsequent queries *)
        let options' := <["sessionId" := JStr sid]> (options this) in
        (length (objects h),
         {| session := {| options := options'; sessionId := Some sid |};
            objects := objects h ++
              [{| class := PlainParser;
                  state := create (baseQuery prompt options');
                  sent := (prompt, options') |}] |})
      else establish
  | None => establish
  end.

(** An extraction method called on the parser object [ref]: the
    [consume] that runs is the one of the object's class. *)
Definition call (ref : nat) (v : View) (h : Heap)
  : option (Completion Answer) * Heap :=
  match objects h !! ref with
  | None => (None, h)
  | Some o =>
      match class o with
      | PlainParser =>
          let '(a, p') := extract parseJSON v (state o) in
          (Some a,
           {| session := session h;
              objects := <[ref := {| class := PlainParser; state := p';
                                     sent := sent o |}]> (objects h) |})
      | SessionAware =>
          let '(c, p', this') := consumeAware (state o) (session h) in
          (Some (answer parseJSON v c (messages p')),
           {| session := this';
              objects := <[ref := {| class := SessionAware; state := p';
                                     sent := sent o |}]> (objects h) |})
      end
  end.

Inductive Op : Type :=
| Query (prompt : string)
| Call (ref : nat) (v : View).

Definition step (h : Heap) (op : Op) : Heap :=
  match op with
  | Query prompt => (query prompt h).2
  | Call ref v => (call ref v h).2
  end.

Definition exec (ops : list Op) (h : Heap) : Heap := foldl step h ops.

(** A parser object whose callback has not run yet. *)
Definition unsettled (o : ParserObject) : bool :=
  match class o with
  | SessionAware => negb (consumed (state o))
  | PlainParser => false
  end.

(** Sequential use: a query is issued only when every response handed
    out so far has been drained. *)
Fixpoint sequential (ops : list Op) (h : Heap) : bool :=
  match ops with
  | [] => true
  | op :: rest =>
      match op with
      | Query _ => forallb (fun o => negb (unsettled o)) (objects h)
      | Call _ _ => true
      end
      && sequential rest (step h op)
  end.

(** What the callback of an object receives whenever one of the
    object's methods is called ([None] also stands for no callback and
    for a drain that throws). *)
Definition discovered (g : Generator) (cache : list Message)
  : option string :=
  match failure g with
  | Some _ => None
  | None => scanSessionId (cache ++ pending g)
  end.

Definition latent (o : ParserObject) : option string :=
  match class o with
  | PlainParser => None
  | SessionAware =>
      if consumed (state o) then
        match thrown (state o) with
        | Some _ => None
        | None => scanSessionId (messages (state o))
        end
      else discovered (generator (state o)) (messages (state o))
  end.

Definition hot (o : ParserObject) : bool := truthy_opt (latent o).

(** What sequential use maintains: a stored identifier is the one
    every object would report; while none is stored, only an object
    not yet drained can report one, and there is at most one such
    object. *)
Definition Inv (h : Heap) : Prop :=
  match sessionId (session h) with
  | Some sid =>
      truthy sid = true
      /\ forall i o, objects h !! i = Some o -> hot o = true ->
                     latent o = Some sid
  | None =>
      (forall i o, objects h !! i = Some o -> hot o = true ->
                   unsettled o = true)
      /\ (forall i j oi oj,
            objects h !! i = Some oi -> objects h !! j = Some oj ->
            unsettled oi = true -> unsettled oj = true -> i = j)
  end.

(** The reading of "captured once, never mutated thereafter": an
    identifier stored after some prefix of the operations is still the
    stored one after all of them. *)
Definition capture_is_final (ops : list Op) (h : Heap) : Prop :=
  forall n sid,
    sessionId (session (exec (take n ops) h)) = Some sid ->
    sessionId (session (exec ops h)) = Some sid.

End Queries.

(** A backend whose stream reports session ["S1"] for the prompt ["a"]
    and ["S2"] for any other prompt. *)
Definition twoSessions (prompt : string) (_ : ClaudeCodeOptions)
  : Generator :=
  fresh [ResultMessage (Some "success") "ok"
           (Some (if String.eqb prompt "a" then "S1" else "S2")) None
           {| total_cost := None |}] None.

Definition noJSON (_ : string) : option JsValue := None.

End Fluent.


(** ** Further readings of the pipeline *)

(** The first error record of a stream. *)
Fixpoint firstError (rs : list CLI.Output) : option CLI.Output :=
  match rs with
  | [] => None
  | output :: rest => if is_error output then Some output else firstError rest
  end.

(** The typed error that [parseMessage] throws for an error record. *)
Definition thrownFor (env : Env) (output : CLI.Output) : JsError :=
  let errorMessage :=
    or_else (CLI.error output ≫= CLI.message) "Unknown error" in
  createTypedError env (detectErrorType env errorMessage) errorMessage
    (CLI.error output).

(** An interceptor that answers by itself, without calling [next]. *)
Definition shortCircuit (fname : string) (response : InterceptorResponse)
  : Interceptor :=
  {| fn_name := fname; invoke := fun _ _ _ => Ret response |}.

(** An interceptor that catches a failure of [next] and answers with a
    fallback. *)
Definition catcher (fname : string) (fallback : InterceptorResponse)
  : Interceptor :=
  {| fn_name := fname;
     invoke := fun request context next =>
       tryCatch (next request context) (fun _ => Ret fallback) |}.

(** A probe that hands the message generator of the response through. *)
Definition keeps_messages (p : ProbeSpec) : Prop :=
  forall r, messages (post p r) = messages r.

(** The messages of the wrapping layers around a failure, outermost
    first. *)
Definition wrappedMessage (names : list string) (msg : string) : string :=
  foldr (fun fname m =>
           "Interceptor '" +:+ displayName fname +:+ "' failed: " +:+ m)
    msg names.

(** The world a chain of probes leaves behind when it is started in [w]
    with [request]: the probes' trace around the final handler's, the
    prompt of the client restored, the options of the innermost request
    merged into the client's. *)
Definition afterChain (ps : list ProbeSpec) (request : InterceptorRequest)
    (w : World) : World :=
  let w1 := upd (logs (enters 0 ps request)) w in
  upd (logs (exits 0 ps))
    (upd (set_prompt (this_prompt (store w1)))
       (upd (log (EvTerminal (prompt (innermost ps request))))
          (upd (fun s => set_options
                           (spread (this_options s)
                              (options (innermost ps request))) s)
             (upd (set_prompt (prompt (innermost ps request))) w1)))).

(** ** Concrete interceptors for the examples *)

(** A probe that replaces the prompt of the request and selects a model. *)
Definition rewriter : ProbeSpec :=
  {| probe_name := "rewriter";
     pre := fun request =>
       {| prompt := "REWRITTEN";
          options := <["model" := JStr "opus"]> (options request);
          originalPrompt := originalPrompt request |};
     post := fun response => response |}.

(** ** The pre-built logging interceptor *)

(** Truthiness of a value held under an open-ended key. *)
Definition js_truthy (v : JsValue) : bool :=
  match v with
  | JUndefined => false
  | JBool b => b
  | JNum n => negb (n =? 0)
  | JStr s => truthy s
  | JList _ => true
  end.

(** [context.debug], an open-ended key of the context. *)
Definition debugOn (h : list Ctx.t) (context : CtxRef) : bool :=
  match h !! context with
  | Some c => from_option js_truthy false (Ctx.extra c !! "debug")
  | None => false
  end.

(** The three calls the interceptor makes on the console, by their
    arguments. *)
Inductive ConsoleLine : Type :=
| ConsoleRequest (prompt : string)
| ConsoleResponse (latency : option Z)
| ConsoleError (elapsed : Z) (error : JsError).

Definition with_metrics (m : option Ctx.Metrics) (c : Ctx.t) : Ctx.t :=
  {| Ctx.requestId := Ctx.requestId c; Ctx.sessionId := Ctx.sessionId c;
     Ctx.correlationId := Ctx.correlationId c;
     Ctx.timestamp := Ctx.timestamp c;
     Ctx.metadata := Ctx.metadata c; Ctx.category := Ctx.category c;
     Ctx.complexity := Ctx.complexity c;
     Ctx.suggestedModel := Ctx.suggestedModel c;
     Ctx.metrics := m; Ctx.extra := Ctx.extra c |}.

(** [{ ...metrics, startTime }] *)
Definition metrics_started (m : option Ctx.Metrics) (startTime : Z)
  : Ctx.Metrics :=
  {| Ctx.startTime := Some startTime;
     Ctx.endTime := m ≫= Ctx.endTime;
     Ctx.tokenCount := m ≫= Ctx.tokenCount;
     Ctx.latency := m ≫= Ctx.latency |}.

(** [metrics.endTime = endTime; metrics.latency = metrics.endTime -
    startTime] *)
Definition metrics_ended (m : Ctx.Metrics) (startTime endTime : Z)
  : Ctx.Metrics :=
  {| Ctx.startTime := Ctx.startTime m;
     Ctx.endTime := Some endTime;
     Ctx.tokenCount := Ctx.tokenCount m;
     Ctx.latency := Some (endTime - startTime) |}.

(** Assignment to a property of the context object [context]. *)
Definition modifyContext (context : CtxRef) (f : Ctx.t -> Ctx.t) (s : Store)
  : Store :=
  match heap s !! context with
  | Some c => set_heap (<[context := f c]> (heap s)) s
  | None => s
  end.

Section Logging.

Variable env : Env.

(** The console, which the sources only call. *)
Variable console : ConsoleLine -> Promise unit.

Definition whenDebug (context : CtxRef) (line : list Ctx.t -> ConsoleLine)
  : Promise unit :=
  Read (fun s => if debugOn (heap s) context then console (line (heap s))
                 else Ret tt).

(** The [TypeError] of an assignment to a property of [undefined]. *)
Definition cannotSet (property : string) : JsError :=
  let msg := "Cannot set properties of undefined (setting '"
             +:+ property +:+ "')" in
  {| cls := TypedErrorC "TypeError"; name := "TypeError"; message := msg;
     stack := captureStack env msg |}.

Definition loggingInterceptor : Interceptor :=
  {| fn_name := "loggingInterceptor";
     invoke := fun request context next =>
       Now (fun startTime =>
       Modify (modifyContext context (fun c =>
                 with_metrics (Some (metrics_started (Ctx.metrics c) startTime))
                   c)) (
       whenDebug context (fun _ => ConsoleRequest (prompt request)) ;;
       tryCatch
         (response ← next request context;
          Now (fun endTime =>
          Read (fun s =>
            match heap s !! context ≫= Ctx.metrics with
            | None => Throw (cannotSet "endTime")
            | Some m =>
                Modify (modifyContext context
                          (with_metrics
                             (Some (metrics_ended m startTime endTime)))) (
                whenDebug context (fun h =>
                  ConsoleResponse
                    (match h !! context ≫= Ctx.metrics with
                     | Some m' => Ctx.latency m'
                     | None => None
                     end)) ;;
                Ret response)
            end)))
         (fun error =>
            Now (fun t =>
            whenDebug context (fun _ => ConsoleError (t - startTime) error) ;;
            Throw error)))) |}.

End Logging.

(** ** Concrete pieces for the interceptor examples *)

Definition quietConsole (_ : ConsoleLine) : Promise unit := Ret tt.

Definition emptyResponse : InterceptorResponse :=
  {| messages := Ret tt; metadata := None |}.

(** A stage that takes 120 ms. *)
Definition slowNext : Next := fun _ _ => Sleep 120 (Ret emptyResponse).

(** A stage that fails after 30 ms. *)
Definition failingNext : Next := fun _ _ => Sleep 30 (Throw boom).

(** A world whose heap holds the context of a started invocation. *)
Definition startedWorld : World := opened (world0 "hi" ∅).

(** The world after one random tag has been drawn. *)
Definition drawn (w : World) : World :=
  match entropy (store w) with
  | [] => w
  | _ :: rest => upd (set_entropy rest) w
  end.

(** ** Roles *)

Module Roles.

Record RoleConfig : Type := {
  name : string;
  description : option string;
  defaultPrompt : option string;
  options : option ClaudeCodeOptions;
  allowedTools : option (list string);
  deniedTools : option (list string);
  model : option string;
  temperature : option Z;
  maxTokens : option Z;
  timeout : option Z;
  addDirectories : option (list string);
  context : option (list string);
  permissionMode : option string;
  debug : option bool
}.

(** A [Map<string, RoleConfig>]: the entries in insertion order, one per
    key. *)
Abbreviation RoleMap := (list (string * RoleConfig)).

(** [Map.prototype.set]: an existing key keeps its place. *)
Fixpoint map_set (k : string) (v : RoleConfig) (m : RoleMap) : RoleMap :=
  match m with
  | [] => [(k, v)]
  | (k', v') :: rest =>
      if String.eqb k' k then (k, v) :: rest
      else (k', v') :: map_set k v rest
  end.

Fixpoint map_get (k : string) (m : RoleMap) : option RoleConfig :=
  match m with
  | [] => None
  | (k', v') :: rest => if String.eqb k' k then Some v' else map_get k rest
  end.

Definition map_has (k : string) (m : RoleMap) : bool :=
  match map_get k m with
  | Some _ => true
  | None => false
  end.

(** [Map.prototype.delete]: whether the key was there, and what is left. *)
Definition map_delete (k : string) (m : RoleMap) : bool * RoleMap :=
  (map_has k m, filter (fun kv => negb (String.eqb kv.1 k)) m).

(** The methods of [RoleRegistry], on the map it holds. *)
Definition register (role : RoleConfig) (roles : RoleMap) : RoleMap :=
  map_set (name role) role roles.

Definition get (name : string) (roles : RoleMap) : option RoleConfig :=
  map_get name roles.

Definition has (name : string) (roles : RoleMap) : bool := map_has name roles.

(** [list()]; the name [list] is taken. *)
Definition listRoles (roles : RoleMap) : list RoleConfig := snd <$> roles.

Definition remove (name : string) (roles : RoleMap) : bool * RoleMap :=
  map_delete name roles.

Definition clear (_ : RoleMap) : RoleMap := [].

Definition plainRole (name : string) : RoleConfig :=
  {| name := name; description := None; defaultPrompt := None;
     options := None; allowedTools := None; deniedTools := None;
     model := None; temperature := None; maxTokens := None; timeout := None;
     addDirectories := None; context := None; permissionMode := None;
     debug := None |}.

Definition builtInRoles : list RoleConfig :=
  [ {| name := "codeAnalyzer";
       description := Some "Analyze codebases with read-only tools";
       defaultPrompt := Some "Analyze this codebase";
       options := None;
       allowedTools := Some ["Read"; "Grep"; "LS"; "Glob"];
       deniedTools := None; model := Some "sonnet"; temperature := None;
       maxTokens := None; timeout := Some 60000; addDirectories := None;
       context := None; permissionMode := None; debug := None |};
    {| name := "codeWriter";
       description := Some "Write and modify code with full tool access";
       defaultPrompt := Some "Help me write code";
       options := None;
       allowedTools := Some ["Read"; "Write"; "Edit"; "MultiEdit"; "Bash";
                             "Grep"; "LS"; "Glob"];
       deniedTools := None; model := Some "sonnet"; temperature := None;
       maxTokens := None; timeout := Some 120000; addDirectories := None;
       context := None; permissionMode := Some "acceptEdits";
       debug := None |};
    {| name := "debugger";
       description :=
         Some "Debug code issues with analysis and execution tools";
       defaultPrompt := Some "Help me debug this issue";
       options := None;
       allowedTools := Some ["Read"; "Bash"; "Grep"; "LS"; "Glob"; "Edit"];
       deniedTools := None; model := Some "sonnet"; temperature := None;
       maxTokens := None; timeout := Some 90000; addDirectories := None;
       context := None; permissionMode := None; debug := Some true |};
    {| name := "quickChat";
       description := Some "Quick conversations without tools";
       defaultPrompt := Some "Hello! How can I help you?";
       options := None;
       allowedTools := Some [];
       deniedTools := None; model := Some "haiku"; temperature := None;
       maxTokens := None; timeout := Some 30000; addDirectories := None;
       context := None; permissionMode := None; debug := None |};
    {| name := "researcher";
       description :=
         Some "Research and analysis with web search capabilities";
       defaultPrompt := Some "Help me research this topic";
       options := None;
       allowedTools := Some ["Read"; "WebSearch"; "WebFetch"; "Grep"; "LS"];
       deniedTools := None; model := Some "sonnet"; temperature := None;
       maxTokens := None; timeout := Some 180000; addDirectories := None;
       context := None; permissionMode := None; debug := None |};
    {| name := "fileManager";
       description := Some "File operations and organization";
       defaultPrompt := Some "Help me manage files";
       options := None;
       allowedTools := Some ["Read"; "Write"; "LS"; "Bash"];
       deniedTools := None; model := Some "haiku"; temperature := None;
       maxTokens := None; timeout := Some 60000; addDirectories := None;
       context := None; permissionMode := Some "acceptEdits";
       debug := None |} ].

Definition initializeBuiltInRoles (roles : RoleMap) : RoleMap :=
  foldl (fun registry role => register role registry) roles builtInRoles.

(** [options.key] *)
Definition read (o : ClaudeCodeOptions) (key : string) : JsValue :=
  default JUndefined (o !! key).

Definition is_undefined (v : JsValue) : bool :=
  match v with
  | JUndefined => true
  | _ => false
  end.

(** [options.key || []] for a key that holds an array. *)
Definition readList (o : ClaudeCodeOptions) (key : string) : list string :=
  match o !! key with
  | Some (JList l) => l
  | _ => []
  end.

(** [if (cond) { mergedOptions.key = value; }] *)
Definition setIf (cond : bool) (key : string) (value : JsValue)
    (mergedOptions : ClaudeCodeOptions) : ClaudeCodeOptions :=
  if cond then <[key := value]> mergedOptions else mergedOptions.

(** [[...(base.key || []), ...items.filter(x => !base.key?.includes(x))]] *)
Definition mergeList (baseOptions : ClaudeCodeOptions) (key : string)
    (items : list string) : list string :=
  readList baseOptions key
  ++ filter (fun x => x ∉ readList baseOptions key) items.

Definition nonEmpty (items : option (list string)) : bool :=
  match items with
  | Some (_ :: _) => true
  | _ => false
  end.

Section Apply.

Variable env : Env.

Definition roleNotFound (roleName : string) (roles : RoleMap) : JsError :=
  new_Error env ("Role '" +:+ roleName +:+ "' not found. Available roles: "
                 +:+ String.concat ", " (name <$> listRoles roles)).

Definition applyRole (roles : RoleMap) (roleName : string)
    (baseOptions : ClaudeCodeOptions) : Completion ClaudeCodeOptions :=
  match get roleName roles with
  | None => Thrown (roleNotFound roleName roles)
  | Some role =>
      (* Base options take precedence over role defaults *)
      let mergedOptions := spread (default ∅ (options role)) baseOptions in
      let mergedOptions :=
        setIf (truthy_opt (model role)
               && negb (js_truthy (read baseOptions "model")))
          "model" (JStr (default "" (model role))) mergedOptions in
      let mergedOptions :=
        setIf (bool_decide (is_Some (temperature role))
               && is_undefined (read baseOptions "temperature"))
          "temperature" (JNum (default 0 (temperature role))) mergedOptions in
      let mergedOptions :=
        setIf (bool_decide (is_Some (maxTokens role))
               && is_undefined (read baseOptions "maxTokens"))
          "maxTokens" (JNum (default 0 (maxTokens role))) mergedOptions in
      let mergedOptions :=
        setIf (bool_decide (is_Some (timeout role))
               && is_undefined (read baseOptions "timeout"))
          "timeout" (JNum (default 0 (timeout role))) mergedOptions in
      let mergedOptions :=
        setIf (truthy_opt (permissionMode role)
               && negb (js_truthy (read baseOptions "permissionMode")))
          "permissionMode" (JStr (default "" (permissionMode role)))
          mergedOptions in
      let mergedOptions :=
        setIf (bool_decide (is_Some (debug role))
               && is_undefined (read baseOptions "debug"))
          "debug" (JBool (default false (debug role))) mergedOptions in
      (* Merge tool arrays *)
      let mergedOptions :=
        setIf (nonEmpty (allowedTools role)) "allowedTools"
          (JList (mergeList baseOptions "allowedTools"
                    (default [] (allowedTools role)))) mergedOptions in
      let mergedOptions :=
        setIf (nonEmpty (deniedTools role)) "deniedTools"
          (JList (mergeList baseOptions "deniedTools"
                    (default [] (deniedTools role)))) mergedOptions in
      (* Merge context arrays *)
      let mergedOptions :=
        setIf (nonEmpty (addDirectories role)) "addDirectories"
          (JList (mergeList baseOptions "addDirectories"
                    (default [] (addDirectories role)))) mergedOptions in
      let mergedOptions :=
        setIf (nonEmpty (context role)) "context"
          (JList (mergeList baseOptions "context"
                    (default [] (context role)))) mergedOptions in
      Normal mergedOptions
  end.

End Apply.

Definition getRoleDefaultPrompt (roles : RoleMap) (roleName : string)
  : option string :=
  get roleName roles ≫= defaultPrompt.

(** The keys that [applyRole] treats one by one. *)
Definition scalarKeys : list string :=
  ["model"; "temperature"; "maxTokens"; "timeout"; "permissionMode"; "debug"].

Definition listKeys : list string :=
  ["allowedTools"; "deniedTools"; "addDirectories"; "context"].

(** The list that a role holds for one of the list-valued keys. *)
Definition roleList (role : RoleConfig) (key : string) : list string :=
  if String.eqb key "allowedTools" then default [] (allowedTools role)
  else if String.eqb key "deniedTools" then default [] (deniedTools role)
  else if String.eqb key "addDirectories" then default [] (addDirectories role)
  else if String.eqb key "context" then default [] (context role)
  else [].

(** The ten conditional assignments of [applyRole], in their order. *)
Definition overrides (role : RoleConfig) (baseOptions : ClaudeCodeOptions)
  : list (bool * string * JsValue) :=
  [ (truthy_opt (model role)
     && negb (js_truthy (read baseOptions "model")),
     "model", JStr (default "" (model role)));
    (bool_decide (is_Some (temperature role))
     && is_undefined (read baseOptions "temperature"),
     "temperature", JNum (default 0 (temperature role)));
    (bool_decide (is_Some (maxTokens role))
     && is_undefined (read baseOptions "maxTokens"),
     "maxTokens", JNum (default 0 (maxTokens role)));
    (bool_decide (is_Some (timeout role))
     && is_undefined (read baseOptions "timeout"),
     "timeout", JNum (default 0 (timeout role)));
    (truthy_opt (permissionMode role)
     && negb (js_truthy (read baseOptions "permissionMode")),
     "permissionMode", JStr (default "" (permissionMode role)));
    (bool_decide (is_Some (debug role))
     && is_undefined (read baseOptions "debug"),
     "debug", JBool (default false (debug role)));
    (nonEmpty (allowedTools role), "allowedTools",
     JList (mergeList baseOptions "allowedTools"
              (default [] (allowedTools role))));
    (nonEmpty (deniedTools role), "deniedTools",
     JList (mergeList baseOptions "deniedTools"
              (default [] (deniedTools role))));
    (nonEmpty (addDirectories role), "addDirectories",
     JList (mergeList baseOptions "addDirectories"
              (default [] (addDirectories role))));
    (nonEmpty (context role), "context",
     JList (mergeList baseOptions "context" (default [] (context role)))) ].

Definition applyOverrides (ovs : list (bool * string * JsValue))
    (o : ClaudeCodeOptions) : ClaudeCodeOptions :=
  foldl (fun acc ov => setIf ov.1.1 ov.1.2 ov.2 acc) o ovs.

Fixpoint findOverride (key : string) (ovs : list (bool * string * JsValue))
  : option (bool * JsValue) :=
  match ovs with
  | [] => None
  | ov :: rest =>
      if String.eqb ov.1.2 key then Some (ov.1.1, ov.2)
      else findOverride key rest
  end.

(** A registry as its methods keep it: one entry per key, each role under
    its own name. *)
Definition wellFormed (roles : RoleMap) : Prop :=
  NoDup roles.*1 /\ Forall (fun kv => kv.1 = name kv.2) roles.

(** The operations of a registry. *)
Inductive RegistryOp : Type :=
| Register (role : RoleConfig)
| Remove (name : string)
| Clear.

Definition applyOp (roles : RoleMap) (op : RegistryOp) : RoleMap :=
  match op with
  | Register role => register role roles
  | Remove n => (remove n roles).2
  | Clear => clear roles
  end.

End Roles.


(** ** The fluent builder with roles *)

Module QueryBuilder.

(** The fields of a builder that the methods below read or write; the
    handlers and the logger are with the raw query further down. *)
Record t : Type := {
  options : ClaudeCodeOptions;
  currentRole : option string
}.

Definition create : t := {| options := ∅; currentRole := None |}.

(** [this.options.key = value; return this;] *)
Definition assign (key : string) (value : JsValue) (this : t) : t :=
  {| options := <[key := value]> (options this);
     currentRole := currentRole this |}.

Definition allTools : list string :=
  ["Read"; "Write"; "Edit"; "Bash"; "Grep"; "Glob"; "LS"; "MultiEdit";
   "NotebookRead"; "NotebookEdit"; "WebFetch"; "TodoRead"; "TodoWrite";
   "WebSearch"; "Task"; "MCPTool"].

Definition withModel (model : string) : t -> t := assign "model" (JStr model).

Definition allowTools (tools : list string) (this : t) : t :=
  if bool_decide (length tools = 0%nat) then
    (* Enforce read-only mode by denying all tools *)
    assign "allowedTools" (JList [])
      (assign "deniedTools" (JList allTools) this)
  else assign "allowedTools" (JList tools) this.

Definition denyTools (tools : list string) : t -> t :=
  assign "deniedTools" (JList tools).

Definition withPermissions (mode : string) : t -> t :=
  assign "permissionMode" (JStr mode).

Definition skipPermissions : t -> t :=
  assign "permissionMode" (JStr "bypassPermissions").

Definition acceptEdits : t -> t :=
  assign "permissionMode" (JStr "acceptEdits").

Definition inDirectory (cwd : string) : t -> t := assign "cwd" (JStr cwd).

Definition withTimeout (ms : Z) : t -> t := assign "timeout" (JNum ms).

Definition withSessionId (sessionId : string) : t -> t :=
  assign "sessionId" (JStr sessionId).

Definition debug (enabled : bool) : t -> t := assign "debug" (JBool enabled).

Section WithRegistry.

Variable env : Env.

(** The role is noted before it is looked up: a failed call leaves the
    name behind and the options as they were. *)
Definition withRole (roleName : string) (roles : Roles.RoleMap) (this : t)
  : Completion unit * t :=
  let this := {| options := options this; currentRole := Some roleName |} in
  match Roles.applyRole env roles roleName (options this) with
  | Normal o => (Normal tt, {| options := o; currentRole := currentRole this |})
  | Thrown e => (Thrown e, this)
  end.

Definition defineRole (role : Roles.RoleConfig) (apply : bool)
    (roles : Roles.RoleMap) (this : t)
  : Completion unit * t * Roles.RoleMap :=
  let roles := Roles.register role roles in
  if apply then (withRole (Roles.name role) roles this, roles)
  else (Normal tt, this, roles).

(** [prompt || (this.currentRole ? getRoleDefaultPrompt(this.currentRole)
    : undefined)] *)
Definition finalPrompt (prompt : option string) (roles : Roles.RoleMap)
    (this : t) : option string :=
  if truthy_opt prompt then prompt
  else if truthy_opt (currentRole this)
       then Roles.getRoleDefaultPrompt roles (default "" (currentRole this))
       else None.

Definition noPrompt : JsError :=
  new_Error env "No prompt provided and no default prompt available from role".

(** [query(prompt)] up to the call of [baseQuery]: the arguments that it
    passes on, or the error. *)
Definition query (prompt : option string) (roles : Roles.RoleMap) (this : t)
  : Completion (string * ClaudeCodeOptions) :=
  let finalPrompt := finalPrompt prompt roles this in
  if negb (truthy_opt finalPrompt) then Thrown noPrompt
  else Normal (default "" finalPrompt, options this).

(** One call on a builder. *)
Inductive Call : Type :=
| WithModel (model : string)
| AllowTools (tools : list string)
| DenyTools (tools : list string)
| WithPermissions (mode : string)
| SkipPermissions
| AcceptEdits
| InDirectory (cwd : string)
| WithTimeout (ms : Z)
| WithSessionId (sessionId : string)
| Debug (enabled : bool)
| WithRole (roleName : string)
| DefineRole (role : Roles.RoleConfig) (apply : bool).

Definition perform (call : Call) (roles : Roles.RoleMap) (this : t)
  : Completion unit * t * Roles.RoleMap :=
  match call with
  | WithModel model => (Normal tt, withModel model this, roles)
  | AllowTools tools => (Normal tt, allowTools tools this, roles)
  | DenyTools tools => (Normal tt, denyTools tools this, roles)
  | WithPermissions mode => (Normal tt, withPermissions mode this, roles)
  | SkipPermissions => (Normal tt, skipPermissions this, roles)
  | AcceptEdits => (Normal tt, acceptEdits this, roles)
  | InDirectory cwd => (Normal tt, inDirectory cwd this, roles)
  | WithTimeout ms => (Normal tt, withTimeout ms this, roles)
  | WithSessionId sessionId => (Normal tt, withSessionId sessionId this, roles)
  | Debug enabled => (Normal tt, debug enabled this, roles)
  | WithRole roleName => (withRole roleName roles this, roles)
  | DefineRole role apply => defineRole role apply roles this
  end.

(** A caller that makes the calls one after the other and goes on after an
    error of [withRole]. *)
Definition performAll (calls : list Call) (roles : Roles.RoleMap) (this : t)
  : t * Roles.RoleMap :=
  foldl (fun st call => let '(_, this, roles) := perform call st.2 st.1 in
                        (this, roles))
    (this, roles) calls.

Definition is_denyTools (call : Call) : bool :=
  match call with
  | DenyTools _ => true
  | _ => false
  end.

End WithRegistry.

(** Every tool is on the builder's deny list. *)
Definition deniesAll (this : t) : Prop :=
  forall tool,
    tool ∈ allTools -> tool ∈ Roles.readList (options this) "deniedTools".

End QueryBuilder.

(** ** The raw query *)

(** [message.type] *)
Definition msg_type (m : Message) : string :=
  match m with
  | AssistantMessage _ _ => "assistant"
  | ResultMessage _ _ _ _ _ => "result"
  | SystemMessage _ _ _ => "system"
  | UserMessage _ _ => "user"
  end.

(** The second argument of a call to the logger. *)
Inductive LogContext : Type :=
| NoContext
| QueryContext (prompt : string) (options : ClaudeCodeOptions)
| TypeContext (type : string)
| ErrorContext (error : JsError).

(** The body of a synchronous function: from the time and the store at the
    call, what it returns or throws and the store it leaves. It cannot
    wait. *)
Definition Sync (A : Type) : Type := Z -> Store -> Completion A * Store.

(** A call of a synchronous function. *)
Definition callSync {Y A} (f : Sync A) : Prog Y A :=
  Now (fun t =>
    Read (fun s => Modify (fun _ => (f t s).2) (liftCompletion (f t s).1))).

(** The logger's methods that the builder calls; the class itself is in
    [logger.ts]. *)
Module Logger.

Record t : Type := {
  info : string -> LogContext -> Sync unit;
  debug : string -> LogContext -> Sync unit;
  error : string -> LogContext -> Sync unit
}.

End Logger.

(** [(message: Message) => void]: a handler is called and what it returns
    is dropped. For a handler declared [async], the body is its run up to
    its first wait; it returns normally whatever happens in it, and what it
    does later is awaited by nobody and is not followed here. *)
Abbreviation Handler := (Message -> Sync unit).

Section RawQuery.

Variable baseQuery : string -> ClaudeCodeOptions -> Prog Message unit.
Variable options : ClaudeCodeOptions.
Variable messageHandlers : list Handler.
Variable logger : option Logger.t.

(** [this.logger?.method(...)] *)
Definition tell {Y} (call : Logger.t -> Sync unit) : Prog Y unit :=
  match logger with
  | Some l => callSync (call l)
  | None => Ret tt
  end.

(** [for (const handler of handlers) { try { handler(message); } catch
    (error) { this.logger?.error('Message handler error', { error }); } }] *)
Fixpoint runHandlers {Y} (handlers : list Handler) (message : Message)
  : Prog Y unit :=
  match handlers with
  | [] => Ret tt
  | handler :: rest =>
      tryCatch (callSync (handler message))
        (fun error' =>
           tell (fun l => Logger.error l "Message handler error"
                            (ErrorContext error'))) ;;
      runHandlers rest message
  end.

Definition queryRaw (prompt : string) : Prog Message unit :=
  tell (fun l => Logger.info l "Starting query"
                   (QueryContext prompt options)) ;;
  forAwait (baseQuery prompt options) (fun message =>
    tell (fun l => Logger.debug l "Received message"
                     (TypeContext (msg_type message))) ;;
    (* Run handlers *)
    runHandlers messageHandlers message ;;
    Yield message (Ret tt)) ;;
  tell (fun l => Logger.info l "Query completed" NoContext).

End RawQuery.

(** A generator that yields the given messages and then ends as given. *)
Definition streamOf (ms : list Message) (end_ : Completion unit)
  : Prog Message unit :=
  foldr (fun m k => Yield m k) (liftCompletion end_) ms.

(** A generator that yields each message after the wait given with it, and
    ends as given after a last wait. *)
Definition timedStreamOf (tms : list (Z * Message)) (last : Z)
    (end_ : Completion unit) : Prog Message unit :=
  foldr (fun tm k => Sleep tm.1 (Yield tm.2 k))
    (Sleep last (liftCompletion end_)) tms.

(** A call that returns, whatever the time and the store. *)
Definition settles (f : Sync unit) : Prop :=
  forall t s, (f t s).1 = Normal tt.

(** A logger whose methods do not throw; no logger is one. *)
Definition quiet (logger : option Logger.t) : Prop :=
  forall l, logger = Some l ->
    forall msg ctx,
      settles (Logger.info l msg ctx)
      /\ settles (Logger.debug l msg ctx)
      /\ settles (Logger.error l msg ctx).

(** The world after every handler was called with the message, in order. *)
Definition handled (handlers : list Handler) (w : World) (message : Message)
  : World :=
  foldl (fun w handler =>
           {| store := (handler message (now w) (store w)).2; now := now w |})
    w handlers.

(** The world after the messages arrived, each after its wait and each
    handled at its arrival, and the last wait passed. *)
Definition handledAll (handlers : list Handler) (tms : list (Z * Message))
    (last : Z) (w : World) : World :=
  tick last (foldl (fun w tm => handled handlers (tick tm.1 w) tm.2) w tms).

(** A handler that throws on assistant messages and records the others. *)
Definition pickyHandler : Handler := fun message _ s =>
  match message with
  | AssistantMessage _ _ => (Thrown boom, s)
  | _ => (Normal tt, log (EvEnter 0 (msg_type message)) s)
  end.

Definition countingLogger : Logger.t :=
  {| Logger.info := fun _ _ _ s => (Normal tt, log (EvEnter 1 "info") s);
     Logger.debug := fun _ _ _ s => (Normal tt, log (EvEnter 1 "debug") s);
     Logger.error := fun _ _ _ s => (Normal tt, log (EvEnter 1 "error") s) |}.
(** ** Laws of the interpreter *)

Lemma run_bind {Y A B} (p : Prog Y A) (k : A -> Prog Y B) (w : World) :
  run (bind p k) w = andThen (run p w) (fun a => run (k a)).
Proof.
  revert w; induction p as [a|e|f IH|f p IH|f IH|d p IH|y p IH]; intros w; simpl.
  - destruct (run (k a) w) as [[c ys] w']; reflexivity.
  - reflexivity.
  - apply IH.
  - apply IH.
  - apply IH.
  - apply IH.
  - rewrite IH. destruct (run p w) as [[[a|e] ys] w']; simpl; [|reflexivity].
    destruct (run (k a) w') as [[c ys'] w'']; reflexivity.
Qed.

Lemma run_mbind {Y A B} (p : Prog Y A) (k : A -> Prog Y B) (w : World) :
  run (p ≫= k) w = andThen (run p w) (fun a => run (k a)).
Proof. apply run_bind. Qed.

Lemma run_tryCatch {Y A} (p : Prog Y A) (h : JsError -> Prog Y A) (w : World) :
  run (tryCatch p h) w = orCatch (run p w) (fun e => run (h e)).
Proof.
  revert w; induction p as [a|e|f IH|f p IH|f IH|d p IH|y p IH]; intros w; simpl.
  - reflexivity.
  - destruct (run (h e) w) as [[c ys] w']; reflexivity.
  - apply IH.
  - apply IH.
  - apply IH.
  - apply IH.
  - rewrite IH. destruct (run p w) as [[[a|e] ys] w']; simpl; [reflexivity|].
    destruct (run (h e) w') as [[c ys'] w'']; reflexivity.
Qed.

Lemma run_await {Y A} (p : Promise A) (w : World) :
  run (await (Y := Y) p) w = (let '(c, _, w') := run p w in (c, [], w')).
Proof.
  revert w; induction p as [a|e|f IH|f p IH|f IH|d p IH|y p IH]; intros w; simpl;
    try reflexivity; try apply IH.
  destruct y.
Qed.

Lemma run_promise_no_yield {A} (p : Promise A) (w : World) :
  (run p w).1.2 = [].
Proof.
  revert w; induction p as [a|e|f IH|f p IH|f IH|d p IH|y p IH]; intros w; simpl;
    try reflexivity; try apply IH.
  destruct y.
Qed.

(** Re-yielding every item of a generator is the generator itself. *)
Lemma run_forAwait_yield {Y} (g : Prog Y unit) (w : World) :
  run (forAwait g (fun y => Yield y (Ret tt))) w = run g w.
Proof.
  revert w; induction g as [a|e|f IH|f p IH|f IH|d p IH|y p IH]; intros w; simpl;
    try reflexivity; try apply IH.
  - destruct a; reflexivity.
  - change (run (bind (Ret tt) (fun _ => forAwait p (fun y => Yield y (Ret tt)))) w)
      with (run (forAwait p (fun y => Yield y (Ret tt))) w).
    rewrite IH. reflexivity.
Qed.

(** ** The Normalizer's rules, verified *)

Lemma or_else_empty (o : option string) : or_else o "" = from_option id "" o.
Proof.
  destruct o as [w|]; simpl; [|reflexivity].
  unfold truthy. destruct (String.eqb_spec w ""); simpl; congruence.
Qed.

Lemma Normalized_parseMessage (env : Env) (output : CLI.Output) :
  Normalized env output (parseMessage env output).
Proof.
  unfold parseMessage.
  destruct (String.eqb_spec (CLI.type output) "assistant") as [Ha|Ha].
  { destruct (CLI.payload output) as [p|] eqn:Hp.
    - pose proof (Normalized_assistant env output Ha) as H.
      rewrite Hp in H. exact H.
    - pose proof (Normalized_assistant env output Ha) as H.
      rewrite Hp in H. exact H. }
  destruct (String.eqb_spec (CLI.type output) "system") as [Hs|Hs].
  { by apply Normalized_system. }
  destruct (String.eqb_spec (CLI.type output) "result") as [Hr|Hr].
  { rewrite or_else_empty. by apply Normalized_result. }
  destruct (String.eqb_spec (CLI.type output) "error") as [He|He].
  { by apply Normalized_error. }
  apply Normalized_other. rewrite !elem_of_cons, elem_of_nil. tauto.
Qed.

Lemma Normalized_functional (env : Env) (output : CLI.Output)
    (r1 r2 : Completion (option Message)) :
  Normalized env output r1 -> Normalized env output r2 -> r1 = r2.
Proof.
  intros H1 H2.
  destruct H1 as [E1|E1|E1|E1 t1|E1]; destruct H2 as [E2|E2|E2|E2 t2|E2];
    try reflexivity;
    try (rewrite E1 in E2; discriminate E2);
    try (exfalso; apply E1; rewrite E2; set_solver);
    try (exfalso; apply E2; rewrite E1; set_solver).
Qed.

(** C1: every raw record has exactly one normalized outcome, fixed by its
    type: system and unrecognized records are suppressed, an assistant record
    becomes an assistant message with the nested blocks (none when the
    wrapper has no message) and the session identifier, a result record
    becomes a result message with its content or the empty string, the
    session identifier and usage unchanged and the cost's [total_cost_usd]
    as total cost, an error record throws the typed error classified from
    its message text; computing it touches no store, waits for nothing and
    yields nothing. *)
Theorem parseMessage_normalizes (env : Env) (output : CLI.Output) :
  (forall r, Normalized env output r <-> parseMessage env output = r)
  /\ (forall w : World,
        run (liftCompletion (Y := Empty_set) (parseMessage env output)) w
        = (parseMessage env output, [], w)).
Proof.
  split.
  - intros r; split.
    + intros H. eapply Normalized_functional; [apply Normalized_parseMessage|exact H].
    + intros <-. apply Normalized_parseMessage.
  - intros w. destruct (parseMessage env output); reflexivity.
Qed.

(** ** The original flow *)

Section Flow.

Variable env : Env.

(** The body of the loop of [executeOriginalFlow]. *)
Local Abbreviation loopBody :=
  (fun output : CLI.Output =>
     match parseMessage env output with
     | Normal (Some message) => Yield message (Ret tt)
     | Normal None => Ret tt
     | Thrown e => Throw e
     end).

Lemma parseMessage_surfaced (output : CLI.Output) :
  is_error output = false ->
  parseMessage env output
  = Normal (if surfaced output then Some (image output) else None).
Proof.
  unfold is_error, surfaced, image, parseMessage. intros He.
  destruct (String.eqb (CLI.type output) "assistant") eqn:Ha; simpl.
  { destruct (CLI.payload output); reflexivity. }
  destruct (String.eqb (CLI.type output) "system") eqn:Hs.
  { apply String.eqb_eq in Hs. rewrite Hs. reflexivity. }
  destruct (String.eqb (CLI.type output) "result") eqn:Hr.
  { rewrite or_else_empty. reflexivity. }
  rewrite He. reflexivity.
Qed.

Lemma parseMessage_error (output : CLI.Output) :
  is_error output = true ->
  exists e, parseMessage env output = Thrown e.
Proof.
  unfold is_error, parseMessage. intros He.
  apply String.eqb_eq in He. rewrite He. simpl. eauto.
Qed.

Lemma run_records (rs : list CLI.Output) (tail : option JsError) (w : World) :
  run (forAwait
         (foldr (fun output rest => Yield output rest)
            (match tail with Some e => Throw e | None => Ret tt end) rs)
         loopBody) w
  = (flow_completion env rs tail,
     image <$> filter surfaced (until_error rs), w).
Proof.
  induction rs as [|output rest IH]; simpl.
  - destruct tail; reflexivity.
  - rewrite run_mbind.
    destruct (is_error output) eqn:He.
    + destruct (parseMessage_error output He) as [e ->]. reflexivity.
    + rewrite (parseMessage_surfaced output He).
      rewrite filter_cons.
      destruct (surfaced output) eqn:Hs; simpl; rewrite IH.
      * destruct (decide (surfaced output)) as [|n]; [reflexivity|].
        exfalso. apply n. rewrite Hs. exact I.
      * destruct (decide (surfaced output)) as [i|]; [|reflexivity].
        rewrite Hs in i. destruct i.
Qed.

(** The whole run of the flow: what it completes with, what it yields,
    and the transport's two calls in the trace. *)
Lemma run_executeOriginalFlow (w : World) :
  let b := subprocess env (this_prompt (store w)) (this_options (store w)) in
  run (executeOriginalFlow env) w
  = (match spawn_failure b with
     | Some e => Thrown e
     | None => flow_completion env (records b) (stream_failure b)
     end,
     match spawn_failure b with
     | Some _ => []
     | None => image <$> filter surfaced (until_error (records b))
     end,
     upd (log EvDisconnect)
       (upd (log (EvSpawn (this_prompt (store w)) (this_options (store w))))
          w)).
Proof.
  intros b. unfold executeOriginalFlow, tryFinally. cbn [run].
  rewrite run_mbind, run_tryCatch, run_mbind.
  unfold connect. rewrite run_mbind. cbn [run Emit andThen].
  fold b. destruct (spawn_failure b) as [e|]; cbn [run andThen orCatch].
  - reflexivity.
  - unfold receiveMessages. fold b. rewrite run_records.
    destruct (flow_completion env (records b) (stream_failure b)) as [[]|e];
      simpl; rewrite ?app_nil_r; reflexivity.
Qed.

(** C9 (amended): the messages yielded are, in the order of emission,
    exactly one message for each assistant or result record that the
    process emits before its first error record; system records and
    records of any other type yield nothing. *)
Theorem executeOriginalFlow_yields_in_order (w : World) :
  let b := subprocess env (this_prompt (store w)) (this_options (store w)) in
  (run (executeOriginalFlow env) w).1.2
  = match spawn_failure b with
    | Some _ => []
    | None => image <$> filter surfaced (until_error (records b))
    end.
Proof. intros b. rewrite run_executeOriginalFlow. reflexivity. Qed.

End Flow.

(** C9 as stated fails: a record of an unrecognized type is neither a system
    nor an error record, and no message is yielded for it. *)
Lemma unrecognized_record_is_dropped :
  ~ none_dropped (stubEnv [rawRecord "user"]) (world0 "hi" ∅).
Proof. unfold none_dropped. vm_compute. discriminate. Qed.

(** Nor is anything yielded for the records that follow an error record. *)
Example records_after_error_are_dropped :
  (run (executeOriginalFlow (stubEnv [rawRecord "error"; rawRecord "assistant"]))
       (world0 "hi" ∅)).1.2 = [].
Proof. vm_compute. reflexivity. Qed.

(** ** The interceptor chain *)

Section Chain.

Variable env : Env.

Lemma buildInterceptorChain_foldr (this : InternalClient) :
  buildInterceptorChain env this
  = foldr (guarded env) (finalHandler env) (client_interceptors this).
Proof.
  unfold buildInterceptorChain.
  destruct (client_interceptors this); reflexivity.
Qed.

Lemma upd_logs_app (evs evs' : list Event) (w : World) :
  upd (logs (evs ++ evs')) w = upd (logs evs') (upd (logs evs) w).
Proof. unfold upd, logs. simpl. rewrite foldl_app. reflexivity. Qed.

Lemma trace_logs (evs : list Event) (s : Store) :
  trace (logs evs s) = trace s ++ evs.
Proof.
  revert s; induction evs as [|ev evs IH]; intros s.
  - cbn. rewrite app_nil_r. reflexivity.
  - change (logs (ev :: evs) s) with (logs evs (log ev s)).
    rewrite IH. cbn. rewrite <- app_assoc. reflexivity.
Qed.

(** One layer of the reduction: the wrapper passes a success through and
    replaces a failure by the contextual error. *)
Lemma run_guarded (interceptor : Interceptor) (next : Next)
    (request : InterceptorRequest) (context : CtxRef) (w : World) :
  run (guarded env interceptor next request context) w
  = match run (invoke interceptor request context next) w with
    | (Thrown e, ys, w') =>
        (Thrown (contextualError env (fn_name interceptor) e), ys, w')
    | r => r
    end.
Proof.
  unfold guarded. rewrite run_tryCatch.
  destruct (run (invoke interceptor request context next) w)
    as [[[a|e] ys] w']; simpl; [reflexivity|].
  rewrite app_nil_r. reflexivity.
Qed.

(** A stack of probes around any inner stage. *)
Lemma run_probes (inner : Next) (ps : list ProbeSpec) (k : nat)
    (request : InterceptorRequest) (context : CtxRef) (w : World) :
  run (foldr (guarded env) inner (probes k ps) request context) w
  = match run (inner (innermost ps request) context)
            (upd (logs (enters k ps request)) w) with
    | (Normal r, ys, w') =>
        (Normal (outward ps r), ys, upd (logs (exits k ps)) w')
    | (Thrown e, ys, w') => (Thrown (rewrapped env ps e), ys, w')
    end.
Proof.
  revert k request w; induction ps as [|p ps IH]; intros k request w.
  - simpl. destruct w as [s t]. unfold upd, logs. simpl.
    destruct (run (inner request context) {| store := s; now := t |})
      as [[[r|e] ys] [s' t']]; reflexivity.
  - cbn [probes foldr]. rewrite run_guarded.
    cbn [probe invoke]. rewrite run_mbind. cbn [run Emit andThen].
    rewrite run_mbind, IH.
    change (innermost (p :: ps) request) with (innermost ps (pre p request)).
    change (upd (logs (enters (S k) ps (pre p request)))
              (upd (log (EvEnter k (prompt request))) w))
      with (upd (logs (enters k (p :: ps) request)) w).
    destruct (run (inner (innermost ps (pre p request)) context)
                (upd (logs (enters k (p :: ps) request)) w))
      as [[[r|e] ys] w']; cbn.
    + rewrite !app_nil_r. rewrite upd_logs_app. reflexivity.
    + reflexivity.
Qed.

Lemma run_finalHandler (request : InterceptorRequest) (context : CtxRef)
    (w : World) :
  run (finalHandler env request context) w
  = (Normal (terminalResponse env (heap (store w)) context), [],
     upd (set_prompt (this_prompt (store w)))
       (upd (log (EvTerminal (prompt request)))
          (upd (fun s => set_options
                           (spread (this_options s) (options request)) s)
             (upd (set_prompt (prompt request)) w)))).
Proof. reflexivity. Qed.

Lemma terminal_entries_app (tr tr' : list Event) :
  terminal_entries (tr ++ tr')
  = (terminal_entries tr + terminal_entries tr')%nat.
Proof. unfold terminal_entries. rewrite filter_app, length_app. reflexivity. Qed.

Lemma terminal_entries_enters (k : nat) (ps : list ProbeSpec)
    (request : InterceptorRequest) :
  terminal_entries (enters k ps request) = 0%nat.
Proof.
  revert k request; induction ps as [|p ps IH]; intros k request;
    [reflexivity|].
  simpl. apply IH.
Qed.

Lemma terminal_entries_exits (k : nat) (ps : list ProbeSpec) :
  terminal_entries (exits k ps) = 0%nat.
Proof.
  revert k; induction ps as [|p ps IH]; intros k; [reflexivity|].
  simpl. rewrite terminal_entries_app, IH. reflexivity.
Qed.

(** C3: a chain of N interceptors that each call [next] once and do not
    throw enters index 0, 1, ..., N-1, then the final handler, once, and
    returns through N-1, ..., 0; index 0 sees the original request and
    hands back the final response. *)
Theorem chain_call_order (cfg : InterceptorConfig) (ps : list ProbeSpec)
    (request : InterceptorRequest) (context : CtxRef) (w : World) :
  let r := run (buildInterceptorChain env (client (probes 0 ps) cfg)
                  request context) w in
  r.1.1 = Normal (outward ps (terminalResponse env (heap (store w)) context))
  /\ trace (store r.2)
     = trace (store w) ++ enters 0 ps request
       ++ [EvTerminal (prompt (innermost ps request))] ++ exits 0 ps
  /\ terminal_entries (trace (store r.2))
     = S (terminal_entries (trace (store w))).
Proof.
  intros r. subst r.
  rewrite buildInterceptorChain_foldr. cbn [client client_interceptors].
  rewrite run_probes, run_finalHandler. cbn [fst snd].
  assert (trace (store (upd (logs (exits 0 ps))
            (upd (set_prompt (this_prompt (store (upd (logs (enters 0 ps request)) w))))
              (upd (log (EvTerminal (prompt (innermost ps request))))
                (upd (fun s => set_options
                        (spread (this_options s) (options (innermost ps request))) s)
                  (upd (set_prompt (prompt (innermost ps request)))
                     (upd (logs (enters 0 ps request)) w)))))))
          = trace (store w) ++ enters 0 ps request
            ++ [EvTerminal (prompt (innermost ps request))] ++ exits 0 ps)
    as Htrace.
  { cbn [upd store]. rewrite trace_logs. cbn [set_prompt log set_options trace].
    rewrite trace_logs. rewrite <- !app_assoc. reflexivity. }
  split; [|split].
  - cbn [upd store]. f_equal. f_equal. unfold logs.
    clear. generalize (store w) as s. generalize (enters 0 ps request).
    intros evs; induction evs as [|ev evs IH]; intros s; [reflexivity|].
    simpl. rewrite IH. reflexivity.
  - exact Htrace.
  - rewrite Htrace. rewrite !terminal_entries_app.
    rewrite terminal_entries_enters, terminal_entries_exits.
    unfold terminal_entries at 2. simpl. lia.
Qed.

Lemma append_empty_r (a : string) : a +:+ "" = a.
Proof.
  induction a as [|c a IH]; [reflexivity|].
  change (String c (a +:+ "") = String c a). rewrite IH. reflexivity.
Qed.

Lemma append_assoc (a b c : string) : (a +:+ b) +:+ c = a +:+ b +:+ c.
Proof.
  induction a as [|x a IH]; [reflexivity|].
  change (String x ((a +:+ b) +:+ c) = String x (a +:+ b +:+ c)).
  rewrite IH. reflexivity.
Qed.

Lemma contains_refl (a : string) : contains a a.
Proof.
  exists "", "". change (a = a +:+ ""). rewrite append_empty_r. reflexivity.
Qed.

Lemma contains_prefixed (needle l hay : string) :
  contains needle hay -> contains needle (l +:+ hay).
Proof.
  intros (l' & r & ->). exists (l +:+ l'), r. rewrite append_assoc. reflexivity.
Qed.

Lemma contains_suffixed (needle hay r : string) :
  contains needle hay -> contains needle (hay +:+ r).
Proof.
  intros (l & r' & ->). exists l, (r' +:+ r).
  rewrite !append_assoc. reflexivity.
Qed.

(** C5 (amended): the wrapper around an interceptor that fails re-throws
    a plain [Error], not an [InterceptorChainError]; its message is the
    original message prefixed with the interceptor's name (["anonymous"]
    when the function has none) and its stack is the original stack, so
    the message contains both the name and the original message. A
    success is passed through untouched. *)
Theorem guarded_wraps_failure (interceptor : Interceptor) (next : Next)
    (request : InterceptorRequest) (context : CtxRef) (w : World) :
  run (guarded env interceptor next request context) w
  = match run (invoke interceptor request context next) w with
    | (Thrown e, ys, w') =>
        (Thrown (contextualError env (fn_name interceptor) e), ys, w')
    | r => r
    end
  /\ forall e : JsError,
       let e' := contextualError env (fn_name interceptor) e in
       cls e' = ErrorC
       /\ instanceof e' InterceptorChainErrorC = false
       /\ stack e' = stack e
       /\ message e'
          = "Interceptor '" +:+ displayName (fn_name interceptor)
            +:+ "' failed: " +:+ message e
       /\ contains (displayName (fn_name interceptor)) (message e')
       /\ contains (message e) (message e').
Proof.
  split; [apply run_guarded|].
  intros e e'. subst e'. cbn.
  repeat split.
  - apply contains_prefixed, contains_suffixed, contains_refl.
  - apply contains_prefixed, contains_prefixed, contains_prefixed,
      contains_refl.
Qed.

(** An enclosing interceptor that lets the failure pass is reported in
    turn: every layer adds its own prefix. *)
Lemma run_probes_around_thrower (cfg : InterceptorConfig)
    (ps : list ProbeSpec) (fname : string) (e : JsError)
    (rest : list Interceptor)
    (request : InterceptorRequest) (context : CtxRef) (w : World) :
  run (buildInterceptorChain env
         (client (probes 0 ps ++ thrower fname e :: rest) cfg)
         request context) w
  = (Thrown (rewrapped env ps (contextualError env fname e)), [],
     upd (logs (enters 0 ps request)) w).
Proof.
  rewrite buildInterceptorChain_foldr. cbn [client client_interceptors].
  rewrite foldr_app. rewrite run_probes. cbn [foldr].
  rewrite run_guarded. reflexivity.
Qed.

(** C7 (amended): nothing guards [next] against a second call. A chain
    with an interceptor that calls [next] twice, between any well-behaved
    interceptors, raises no failure and enters the final handler twice. *)
Theorem next_called_twice_reaches_terminal_twice (cfg : InterceptorConfig)
    (ps qs : list ProbeSpec) (k : nat)
    (request : InterceptorRequest) (context : CtxRef) (w : World) :
  let r := run (buildInterceptorChain env
                  (client (probes 0 ps ++ doubler :: probes k qs) cfg)
                  request context) w in
  (exists response, r.1.1 = Normal response)
  /\ terminal_entries (trace (store r.2))
     = S (S (terminal_entries (trace (store w)))).
Proof.
  intros r. subst r.
  rewrite buildInterceptorChain_foldr. cbn [client client_interceptors].
  rewrite foldr_app. rewrite run_probes. cbn [foldr].
  rewrite run_guarded. cbn [doubler invoke].
  rewrite run_mbind.
  rewrite !run_probes, !run_finalHandler. cbn [andThen].
  rewrite !run_probes, !run_finalHandler. cbn [fst snd].
  split; [eauto|].
  cbn [upd store]. rewrite !trace_logs.
  cbn [set_prompt log set_options trace]. rewrite !trace_logs.
  cbn [set_prompt log set_options trace]. rewrite !trace_logs.
  rewrite !terminal_entries_app.
  rewrite !terminal_entries_enters, !terminal_entries_exits.
  unfold terminal_entries at 2 3. simpl. lia.
Qed.

End Chain.

(** ** The timeout *)

Section Timeout.

Variable env : Env.

Lemma run_eta {Y A} (r : Completion A * list Y * World) :
  (let '(c, ys, w') := r in (c, [] ++ ys, w')) = r.
Proof. destruct r as [[c ys] w']. reflexivity. Qed.

Variable this : InternalClient.

(** The callback of the timer throws before it can reject. *)
Lemma timeoutCallback_throws (ms : Z) :
  timeoutCallback env ms
  = Thrown (new_ReferenceError env "InterceptorTimeoutError").
Proof. reflexivity. Qed.

(** With a non-zero timeout the timer is set and the promise is awaited
    as it is: the timer never settles the race. *)
Lemma run_executeWithTimeout {A} (T : Z) (promise : Promise A) (w : World) :
  get (timeout (interceptorConfig this)) = Some T ->
  T <> 0 ->
  run (executeWithTimeout env this promise) w
  = run promise
      (upd (arm {| armedAt := now w; delay := T;
                   callback := timeoutCallback env T |}) w).
Proof.
  intros Hcfg HT. unfold executeWithTimeout. rewrite Hcfg.
  destruct (Z.eqb_spec T 0) as [|_]; [contradiction|]. reflexivity.
Qed.

(** A timeout of zero, like an undefined one, sets no timer. *)
Lemma executeWithTimeout_zero {A} (promise : Promise A) :
  get (timeout (interceptorConfig this)) = Some 0 ->
  executeWithTimeout env this promise = promise.
Proof. intros Hcfg. unfold executeWithTimeout. rewrite Hcfg. reflexivity. Qed.

Lemma executeWithTimeout_undefined {A} (promise : Promise A) :
  get (timeout (interceptorConfig this)) = None ->
  executeWithTimeout env this promise = promise.
Proof. intros Hcfg. unfold executeWithTimeout. rewrite Hcfg. reflexivity. Qed.

End Timeout.

(** C6: the claim does not hold of the code. With timeout 50 and an
    interceptor that waits 200 ms before calling [next], the invocation
    does not fail with [InterceptorTimeoutError] at 50 ms: the timer is
    set, but its callback throws a [ReferenceError] for the erased class
    name instead of rejecting, so the race is decided by the chain alone,
    and the invocation, followed on, ends normally and not before 200 ms
    have passed. *)
Theorem timeout_50_does_not_cut_the_chain :
  let r := run (processQuery (stubEnv []) timeout50) (world0 "hi" ∅) in
  r.1 = (Normal tt, [])
  /\ 200 <= now r.2
  /\ timers (store r.2)
     = [{| armedAt := 0; delay := 50;
           callback :=
             Thrown (new_ReferenceError (stubEnv [])
                       "InterceptorTimeoutError") |}]
  /\ ~ times_out_at (stubEnv []) timeout50 (world0 "hi" ∅) 50.
Proof.
  cbv zeta. split; [vm_compute; reflexivity|].
  split; [vm_compute; discriminate|]. split; [vm_compute; reflexivity|].
  intros (e & w' & Hr & _). vm_compute in Hr. discriminate Hr.
Qed.

(** A timeout of 0 sets no timer at all. *)
Example zero_timeout_sets_no_timer :
  let r := run (processQuery (stubEnv []) timeout0) (world0 "hi" ∅) in
  r.1.1 = Normal tt /\ timers (store r.2) = [].
Proof. vm_compute. repeat split. Qed.

(** C10: the claim does not hold of the code. Constructed with an
    interceptor and without a timeout key, the client stores the timeout
    30000 and the [maxContextSize] 1048576, and sets a timer of 30000 ms;
    but a chain that takes 45 s does not fail with
    [InterceptorTimeoutError]: the callback of the timer throws a
    [ReferenceError] for the erased class name instead of rejecting, and
    the invocation, followed on, ends normally and not before 45 s have
    passed. *)
Theorem default_timeout_does_not_cut_the_chain :
  let this := (constructor (stubEnv []) "hi" ∅
                 (configWithoutTimeout [sleeper 45000])).1 in
  let r := run (processQuery (stubEnv []) this) (world0 "hi" ∅) in
  get (timeout (interceptorConfig this)) = Some 30000
  /\ maxContextSize (interceptorConfig this) = Value 1048576
  /\ r.1 = (Normal tt, [])
  /\ 45000 <= now r.2
  /\ timers (store r.2)
     = [{| armedAt := 0; delay := 30000;
           callback :=
             Thrown (new_ReferenceError (stubEnv [])
                       "InterceptorTimeoutError") |}]
  /\ ~ times_out_at (stubEnv []) this (world0 "hi" ∅) 30000.
Proof.
  cbv zeta. split; [reflexivity|]. split; [reflexivity|].
  split; [vm_compute; reflexivity|].
  split; [vm_compute; discriminate|]. split; [vm_compute; reflexivity|].
  intros (e & w' & Hr & _). vm_compute in Hr. discriminate Hr.
Qed.

(** C8: with an empty interceptor list, [processQuery] is the original flow
    itself: no context object is allocated, no timer is armed and the
    chain's final handler is not entered. *)
Theorem processQuery_without_interceptors (env : Env) (prompt : string)
    (options : ClaudeCodeOptions) (cfg : InterceptorConfig) (w : World) :
  let this := (constructor env prompt options cfg).1 in
  default [] (get (interceptors cfg)) = [] ->
  processQuery env this = executeOriginalFlow env
  /\ heap (store (run (processQuery env this) w).2) = heap (store w)
  /\ timers (store (run (processQuery env this) w).2) = timers (store w)
  /\ terminal_entries (trace (store (run (processQuery env this) w).2))
     = terminal_entries (trace (store w)).
Proof.
  intros this Hnone.
  assert (processQuery env this = executeOriginalFlow env) as ->.
  { unfold processQuery. subst this. cbn [fst constructor client_interceptors].
    rewrite Hnone. reflexivity. }
  split; [reflexivity|].
  rewrite run_executeOriginalFlow. cbn [snd upd store log heap timers trace].
  repeat split.
  rewrite !terminal_entries_app. unfold terminal_entries at 2 3. cbn.
  rewrite !Nat.add_0_r. reflexivity.
Qed.

Lemma processQuery_without_interceptors_default :
  let this := (constructor (stubEnv []) "hi" ∅ emptyConfig).1 in
  processQuery (stubEnv []) this = executeOriginalFlow (stubEnv [])
  /\ heap (store (run (processQuery (stubEnv []) this) (world0 "hi" ∅)).2) = []
  /\ timers (store (run (processQuery (stubEnv []) this) (world0 "hi" ∅)).2) = []
  /\ terminal_entries
       (trace (store (run (processQuery (stubEnv []) this) (world0 "hi" ∅)).2))
     = 0%nat.
Proof.
  exact (processQuery_without_interceptors (stubEnv []) "hi" ∅ emptyConfig
           (world0 "hi" ∅) eq_refl).
Defined.

(** C5 as stated fails: the error re-thrown for a failing interceptor is a
    plain [Error], not an [InterceptorChainError]. *)
Lemma rethrown_error_is_not_chain_error :
  ~ rethrows_chain_error (stubEnv [])
      (client [thrower "piiStripper" boom] emptyConfig)
      (request0 "hi") 0%nat (world0 "hi" ∅).
Proof.
  intros (e & Hr & Hi). vm_compute in Hr. injection Hr as <-.
  vm_compute in Hi. discriminate Hi.
Qed.

(** The message of that error names the interceptor and keeps the original
    message. *)
Example piiStripper_boom_message :
  (run (buildInterceptorChain (stubEnv [])
          (client [thrower "piiStripper" boom] emptyConfig)
          (request0 "hi") 0%nat) (world0 "hi" ∅)).1.1
  = Thrown {| cls := ErrorC; name := "Error";
              message := "Interceptor 'piiStripper' failed: boom";
              stack := stack boom |}.
Proof. vm_compute. reflexivity. Qed.

(** C7 as stated fails: an interceptor that calls [next] twice gets two
    runs of the final handler and no failure. *)
Lemma second_call_is_not_refused :
  ~ second_call_fails (stubEnv []) (client [doubler] emptyConfig)
      (request0 "hi") 0%nat (world0 "hi" ∅).
Proof.
  intros [(e & He) _]. vm_compute in He. discriminate He.
Qed.

Example doubler_enters_terminal_twice :
  terminal_entries
    (trace (store (run (buildInterceptorChain (stubEnv [])
                          (client [doubler] emptyConfig)
                          (request0 "hi") 0%nat) (world0 "hi" ∅)).2))
  = 2%nat.
Proof. vm_compute. reflexivity. Qed.

(** ** The Response Consumer *)

Section Consumer.

Import Parser.

Variable parseJSON : string -> option JsValue.

Lemma consume_fresh (ms : list Message) (end_ : option JsError) :
  consume (create (fresh ms end_)) = (completion end_, drained ms end_).
Proof. reflexivity. Qed.

Lemma consume_drained (ms : list Message) (end_ : option JsError) :
  consume (drained ms end_) = (completion end_, drained ms end_).
Proof. reflexivity. Qed.

Lemma extract_fresh (v : View) (ms : list Message) (end_ : option JsError) :
  extract parseJSON v (create (fresh ms end_))
  = (answer parseJSON v (completion end_) ms, drained ms end_).
Proof. reflexivity. Qed.

Lemma extract_drained (v : View) (ms : list Message) (end_ : option JsError) :
  extract parseJSON v (drained ms end_)
  = (answer parseJSON v (completion end_) ms, drained ms end_).
Proof. reflexivity. Qed.

Lemma extractAll_drained (vs : list View) (ms : list Message)
    (end_ : option JsError) :
  extractAll parseJSON vs (drained ms end_)
  = ((fun v => answer parseJSON v (completion end_) ms) <$> vs,
     drained ms end_).
Proof.
  induction vs as [|v vs IH]; [reflexivity|].
  cbn [extractAll]. rewrite extract_drained, IH. reflexivity.
Qed.

(** C2: whatever extraction methods are called on one instance, in
    whatever order and number, the generator is iterated at most once:
    the first call drains the stream into the cache, and every call
    (the first included) answers from the drained cache; calls after the
    first leave the instance, and so the generator, as they found it. *)
Theorem generator_iterated_at_most_once (vs : list View)
    (ms : list Message) (end_ : option JsError) :
  let p0 := create (fresh ms end_) in
  extractAll parseJSON vs p0
  = ((fun v => answer parseJSON v (completion end_) ms) <$> vs,
     match vs with [] => p0 | _ :: _ => drained ms end_ end)
  /\ (iterations (generator (extractAll parseJSON vs p0).2) <= 1)%nat
  /\ iterations (generator (extractAll parseJSON vs p0).2)
     = (if vs is [] then 0 else 1)%nat
  /\ (forall v, (extract parseJSON v (drained ms end_)).2 = drained ms end_).
Proof.
  intros p0.
  assert (extractAll parseJSON vs p0
          = ((fun v => answer parseJSON v (completion end_) ms) <$> vs,
             match vs with [] => p0 | _ :: _ => drained ms end_ end)) as H.
  { destruct vs as [|v vs]; [reflexivity|].
    subst p0. cbn [extractAll]. rewrite extract_fresh, extractAll_drained.
    reflexivity. }
  split; [exact H|]. rewrite H. cbn [snd].
  destruct vs; cbn; repeat split; lia.
Qed.

End Consumer.

(** ** Session continuation *)

Section Sessions.

Import Parser Fluent.

Variable baseQuery : string -> ClaudeCodeOptions -> Generator.
Variable parseJSON : string -> option JsValue.

Local Abbreviation query := (Fluent.query baseQuery).
Local Abbreviation call := (Fluent.call parseJSON).
Local Abbreviation step := (Fluent.step baseQuery parseJSON).
Local Abbreviation exec := (Fluent.exec baseQuery parseJSON).
Local Abbreviation sequential := (Fluent.sequential baseQuery parseJSON).

Lemma onSessionId_None (this : Session) : onSessionId None this = this.
Proof. reflexivity. Qed.

(** A method call on an object: the callback receives the object's latent
    identifier; the object is drained and keeps its class, its latent
    identifier and the arguments it was created with. *)
Lemma call_object (ref : nat) (v : View) (h : Heap) (o : ParserObject) :
  objects h !! ref = Some o ->
  exists o',
    (call ref v h).2
    = {| session := onSessionId (latent o) (session h);
         objects := <[ref := o']> (objects h) |}
    /\ class o' = class o /\ latent o' = latent o
    /\ unsettled o' = false /\ sent o' = sent o.
Proof.
  intros Ho. unfold Fluent.call. rewrite Ho.
  destruct o as [[|] p snt]; cbn [class state sent].
  - unfold extract. destruct (consume p) as [c p'] eqn:Hc.
    eexists. split; [reflexivity|]. repeat split.
  - unfold consumeAware, latent, unsettled, consume, discovered.
    cbn [class state].
    destruct (consumed p) eqn:Hcons.
    + destruct (thrown p) as [e|] eqn:Hth.
      * eexists. split; [reflexivity|]. cbn. rewrite Hcons, Hth.
        repeat split.
      * eexists. split; [reflexivity|]. cbn. rewrite Hcons, Hth.
        repeat split.
    + cbn [iterate]. destruct (failure (generator p)) as [e|] eqn:Hf.
      * eexists. split; [reflexivity|]. cbn. repeat split.
      * eexists. split; [reflexivity|]. cbn. repeat split.
Qed.

Lemma call_nothing (ref : nat) (v : View) (h : Heap) :
  objects h !! ref = None -> (call ref v h).2 = h.
Proof. intros Ho. unfold Fluent.call. rewrite Ho. reflexivity. Qed.

(** A query: the object appended and the session afterwards. *)
Lemma query_object (prompt : string) (h : Heap) :
  exists o,
    (query prompt h).2
    = {| session :=
           {| options := (sent o).2; sessionId := sessionId (session h) |};
         objects := objects h ++ [o] |}
    /\ sent o
       = (prompt,
          match sessionId (session h) with
          | Some sid =>
              if truthy sid
              then <["sessionId" := JStr sid]> (options (session h))
              else options (session h)
          | None => options (session h)
          end)
    /\ (if truthy_opt (sessionId (session h))
        then class o = PlainParser
        else class o = SessionAware
             /\ unsettled o = true
             /\ latent o = discovered (baseQuery prompt (options (session h))) []).
Proof.
  unfold Fluent.query. destruct h as [[opts [sid|]] objs]; cbn.
  - destruct (truthy sid).
    + exists {| class := PlainParser;
                state := create (baseQuery prompt
                                   (<["sessionId" := JStr sid]> opts));
                sent := (prompt, <["sessionId" := JStr sid]> opts) |}.
      repeat split.
    + exists {| class := SessionAware;
                state := create (baseQuery prompt opts);
                sent := (prompt, opts) |}.
      repeat split.
  - exists {| class := SessionAware;
              state := create (baseQuery prompt opts);
              sent := (prompt, opts) |}.
    repeat split.
Qed.

Lemma hot_latent (o : ParserObject) :
  hot o = true -> exists sid, latent o = Some sid /\ truthy sid = true.
Proof.
  unfold hot. destruct (latent o) as [sid|]; cbn; [eauto|discriminate].
Qed.

Lemma Inv_start (options0 : ClaudeCodeOptions) : Inv (start options0).
Proof.
  unfold Inv. cbn. split.
  - intros i o Ho. rewrite lookup_nil in Ho. discriminate Ho.
  - intros i j oi oj Hi. rewrite lookup_nil in Hi. discriminate Hi.
Qed.

(** A method call keeps the invariant and a stored identifier. *)
Lemma call_Inv (ref : nat) (v : View) (h : Heap) :
  Inv h ->
  Inv (step h (Call ref v))
  /\ forall sid, sessionId (session h) = Some sid ->
                 sessionId (session (step h (Call ref v))) = Some sid.
Proof.
  intros HI. cbn [Fluent.step].
  destruct (objects h !! ref) as [o|] eqn:Ho;
    [|rewrite call_nothing by exact Ho; auto].
  destruct (call_object ref v h o Ho)
    as (o' & -> & Hcls & Hlat & Hset & Hsent).
  assert (hot o' = hot o) as Hhot by (unfold hot; rewrite Hlat; reflexivity).
  unfold Inv in *. cbn [session objects]. unfold onSessionId.
  destruct (sessionId (session h)) as [sid|] eqn:Hsid.
  - destruct HI as [Ht Hagree].
    assert (sessionId (if truthy_opt (latent o)
                       then {| options := options (session h);
                               sessionId := latent o |}
                       else session h) = Some sid) as Hkeep.
    { destruct (truthy_opt (latent o)) eqn:Hh; [|exact Hsid].
      cbn. apply (Hagree ref o Ho). exact Hh. }
    rewrite Hkeep. split; [|intros ? [= <-]; reflexivity].
    split; [exact Ht|].
    intros i o1 Hi Hh1. apply list_lookup_insert_Some in Hi.
    destruct Hi as [(<- & <- & _)|(Hne & Hi)].
    + rewrite Hlat. apply (Hagree ref o Ho). rewrite <- Hhot. exact Hh1.
    + apply (Hagree i o1 Hi Hh1).
  - destruct HI as [Hunset Huniq].
    split; [|intros ? [=]].
    destruct (truthy_opt (latent o)) eqn:Hh.
    + cbn [sessionId].
      destruct (hot_latent o Hh) as (sid & Hl & Ht). rewrite Hl.
      split; [exact Ht|].
      intros i o1 Hi Hh1. apply list_lookup_insert_Some in Hi.
      destruct Hi as [(<- & <- & _)|(Hne & Hi)].
      * rewrite Hlat. exact Hl.
      * exfalso. apply Hne.
        apply (Huniq ref i o o1 Ho Hi); [apply (Hunset ref o Ho Hh)|].
        apply (Hunset i o1 Hi Hh1).
    + rewrite Hsid. split.
      * intros i o1 Hi Hh1. apply list_lookup_insert_Some in Hi.
        destruct Hi as [(<- & <- & _)|(Hne & Hi)].
        -- rewrite Hhot in Hh1. unfold hot in Hh1. congruence.
        -- apply (Hunset i o1 Hi Hh1).
      * intros i j oi oj Hi Hj Hui Huj.
        apply list_lookup_insert_Some in Hi, Hj.
        destruct Hi as [(<- & <- & _)|(Hnei & Hi)]; [congruence|].
        destruct Hj as [(<- & <- & _)|(Hnej & Hj)]; [congruence|].
        apply (Huniq i j oi oj Hi Hj Hui Huj).
Qed.

(** A query issued when every response has been drained keeps the
    invariant; any query leaves the stored identifier alone. *)
Lemma query_Inv (prompt : string) (h : Heap) :
  Inv h ->
  forallb (fun o => negb (unsettled o)) (objects h) = true ->
  Inv (step h (Query prompt))
  /\ sessionId (session (step h (Query prompt))) = sessionId (session h).
Proof.
  intros HI Hsettled. cbn [Fluent.step].
  destruct (query_object prompt h) as (o & -> & Hsent & Hkind).
  cbn [session objects sessionId]. split; [|reflexivity].
  assert (forall i o1, objects h !! i = Some o1 -> unsettled o1 = false)
    as Hold.
  { intros i o1 Hi. rewrite forallb_forall in Hsettled.
    apply list_elem_of_lookup_2, list_elem_of_In, Hsettled in Hi.
    destruct (unsettled o1); [discriminate Hi|reflexivity]. }
  unfold Inv in *. cbn [session objects sessionId].
  destruct (sessionId (session h)) as [sid|] eqn:Hsid.
  - destruct HI as [Ht Hagree]. cbn in Hkind. rewrite Ht in Hkind.
    split; [exact Ht|]. intros i o1 Hi Hh1.
    apply lookup_snoc_Some in Hi. destruct Hi as [[_ Hi]|[_ <-]].
    + apply (Hagree i o1 Hi Hh1).
    + unfold hot, latent in Hh1. rewrite Hkind in Hh1. discriminate Hh1.
  - destruct HI as [Hunset Huniq]. cbn in Hkind.
    destruct Hkind as (Hcls & Hu & Hlat). split.
    + intros i o1 Hi Hh1.
      apply lookup_snoc_Some in Hi. destruct Hi as [[_ Hi]|[_ <-]].
      * apply (Hunset i o1 Hi Hh1).
      * exact Hu.
    + intros i j oi oj Hi Hj Hui Huj.
      apply lookup_snoc_Some in Hi, Hj.
      destruct Hi as [[_ Hi]|[-> <-]].
      { rewrite (Hold i oi Hi) in Hui. discriminate Hui. }
      destruct Hj as [[_ Hj]|[-> <-]].
      { rewrite (Hold j oj Hj) in Huj. discriminate Huj. }
      reflexivity.
Qed.

Lemma exec_app (ops ops' : list Op) (h : Heap) :
  exec (ops ++ ops') h = exec ops' (exec ops h).
Proof. apply foldl_app. Qed.

Lemma sequential_app (ops ops' : list Op) (h : Heap) :
  sequential (ops ++ ops') h
  = sequential ops h && sequential ops' (exec ops h).
Proof.
  revert h; induction ops as [|op ops IH]; intros h; [reflexivity|].
  cbn [app Fluent.sequential]. rewrite IH, andb_assoc. reflexivity.
Qed.

(** In sequential use the invariant and a stored identifier last. *)
Lemma sequential_Inv (ops : list Op) (h : Heap) :
  sequential ops h = true ->
  Inv h ->
  Inv (exec ops h)
  /\ forall sid, sessionId (session h) = Some sid ->
                 sessionId (session (exec ops h)) = Some sid.
Proof.
  revert h; induction ops as [|op ops IH]; intros h Hseq HI; [auto|].
  cbn [Fluent.sequential] in Hseq. apply andb_true_iff in Hseq.
  destruct Hseq as [Hop Hrest].
  assert (Inv (step h op)
          /\ forall sid, sessionId (session h) = Some sid ->
                         sessionId (session (step h op)) = Some sid)
    as [HI' Hkeep].
  { destruct op as [prompt|ref v].
    - destruct (query_Inv prompt h HI Hop) as [HI' Heq].
      split; [exact HI'|]. intros sid Hs. rewrite Heq. exact Hs.
    - apply call_Inv. exact HI. }
  destruct (IH (step h op) Hrest HI') as [HI'' Hkeep'].
  split; [exact HI''|]. intros sid Hs. apply Hkeep', Hkeep, Hs.
Qed.

Lemma sequential_capture_is_final (ops : list Op)
    (options0 : ClaudeCodeOptions) :
  sequential ops (start options0) = true ->
  capture_is_final baseQuery parseJSON ops (start options0).
Proof.
  intros Hseq n sid Hn.
  pose proof (take_drop n ops) as Hsplit.
  rewrite <- Hsplit in Hseq.
  rewrite sequential_app in Hseq. apply andb_true_iff in Hseq.
  destruct Hseq as [Hpre Hpost].
  destruct (sequential_Inv (take n ops) (start options0) Hpre
              (Inv_start options0)) as [HI _].
  destruct (sequential_Inv (drop n ops) _ Hpost HI) as [_ Hkeep].
  rewrite <- Hsplit, exec_app. apply Hkeep, Hn.
Qed.

(** When no stream ever reports an identifier the session stays as it
    was created, whatever is called and in whatever order. *)
Lemma cold_session_unchanged (ops : list Op) (h : Heap) :
  (forall prompt options,
      truthy_opt (discovered (baseQuery prompt options) []) = false) ->
  sessionId (session h) = None ->
  (forall i o, objects h !! i = Some o -> hot o = false) ->
  session (exec ops h) = session h.
Proof.
  intros Hcold. revert h; induction ops as [|op ops IH];
    intros h Hnone Hobjs; [reflexivity|].
  cbn [Fluent.exec foldl].
  change (session (exec ops (step h op)) = session h).
  assert (session (step h op) = session h
          /\ forall i o, objects (step h op) !! i = Some o -> hot o = false)
    as [Hs Ho].
  { destruct op as [prompt|ref v]; cbn [Fluent.step].
    - destruct (query_object prompt h) as (o & -> & Hsent & Hkind).
      cbn [session objects]. rewrite Hnone in Hsent, Hkind |- *.
      cbn in Hkind. destruct Hkind as (_ & _ & Hlat).
      split.
      + rewrite Hsent. cbn. destruct (session h) as [opts sid].
        cbn in Hnone |- *. rewrite Hnone. reflexivity.
      + intros i o1 Hi. apply lookup_snoc_Some in Hi.
        destruct Hi as [[_ Hi]|[_ <-]]; [exact (Hobjs i o1 Hi)|].
        unfold hot. rewrite Hlat. apply Hcold.
    - destruct (objects h !! ref) as [o|] eqn:Hobj;
        [|rewrite call_nothing by exact Hobj; auto].
      destruct (call_object ref v h o Hobj)
        as (o' & -> & Hcls & Hlat & Hset & Hsent).
      cbn [session objects]. pose proof (Hobjs ref o Hobj) as Hc.
      unfold hot in Hc. unfold onSessionId. rewrite Hc.
      split; [reflexivity|].
      intros i o1 Hi. apply list_lookup_insert_Some in Hi.
      destruct Hi as [(<- & <- & _)|(Hne & Hi)].
      + unfold hot. rewrite Hlat. exact Hc.
      + exact (Hobjs i o1 Hi). }
  rewrite <- Hs. apply IH; [rewrite Hs; exact Hnone|exact Ho].
Qed.

(** C4 (amended): in sequential use of a session (a query is issued only
    once the responses handed out before have been drained) an identifier,
    once stored, is never replaced; every query made while an identifier
    is stored hands it to the pipeline under the key [sessionId], over
    whatever that key held, and any other query hands the session's
    options through unchanged; a method call on a response stores the
    identifier which that response's drained stream reports, if it
    reports one; and when no stream ever reports one the session stays as
    created. *)
Theorem session_id_is_kept_in_sequential_use (ops : list Op)
    (options0 : ClaudeCodeOptions) :
  sequential ops (start options0) = true ->
  capture_is_final baseQuery parseJSON ops (start options0)
  /\ (forall h prompt, exists o,
        objects (query prompt h).2 = objects h ++ [o]
        /\ sessionId (session (query prompt h).2) = sessionId (session h)
        /\ sent o
           = (prompt,
              match sessionId (session h) with
              | Some sid =>
                  if truthy sid
                  then <["sessionId" := JStr sid]> (options (session h))
                  else options (session h)
              | None => options (session h)
              end))
  /\ (forall h ref v o,
        objects h !! ref = Some o ->
        sessionId (session (call ref v h).2)
        = if hot o then latent o else sessionId (session h))
  /\ ((forall prompt options,
         truthy_opt (discovered (baseQuery prompt options) []) = false) ->
      session (exec ops (start options0)) = session (start options0)).
Proof.
  intros Hseq. split; [exact (sequential_capture_is_final ops options0 Hseq)|].
  split; [|split].
  - intros h prompt.
    destruct (query_object prompt h) as (o & Hq & Hsent & _).
    exists o. rewrite Hq. cbn [objects session sessionId]. auto.
  - intros h ref v o Ho.
    destruct (call_object ref v h o Ho) as (o' & -> & _).
    cbn [session]. unfold onSessionId, hot.
    destruct (truthy_opt (latent o)); reflexivity.
  - intros Hcold. apply cold_session_unchanged; [exact Hcold|reflexivity|].
    intros i o Ho. cbn in Ho. rewrite lookup_nil in Ho. discriminate Ho.
Qed.

(** The drain behind a method call is the one of [ResponseParser], for
    both classes of object. *)
Lemma call_state (ref : nat) (v : View) (h : Heap) (o : ParserObject) :
  objects h !! ref = Some o ->
  exists o',
    objects (call ref v h).2 = <[ref := o']> (objects h)
    /\ state o' = (consume (state o)).2.
Proof.
  intros Ho. unfold Fluent.call. rewrite Ho.
  destruct o as [[|] p snt]; cbn [class state sent].
  - unfold extract. destruct (consume p) as [c p'].
    eexists. split; reflexivity.
  - unfold consumeAware. destruct (consume p) as [[[]|e] p'];
      eexists; split; reflexivity.
Qed.

Lemma consume_iterations (p : ResponseParser) :
  (consumed p = false -> iterations (generator p) = 0%nat) ->
  (iterations (generator p) <= 1)%nat ->
  consumed (consume p).2 = true
  /\ (iterations (generator (consume p).2) <= 1)%nat.
Proof.
  intros Hfresh Hle. unfold consume.
  destruct (consumed p) eqn:Hc; cbn; [auto|].
  rewrite (Hfresh eq_refl). auto.
Qed.

(** Through a session as well, whatever is queried and called, no
    generator is iterated more than once. *)
Lemma session_generators_iterated_at_most_once (ops : list Op) (h : Heap) :
  (forall prompt options, iterations (baseQuery prompt options) = 0%nat) ->
  (forall i o, objects h !! i = Some o ->
     (consumed (state o) = false -> iterations (generator (state o)) = 0%nat)
     /\ (iterations (generator (state o)) <= 1)%nat) ->
  forall i o, objects (exec ops h) !! i = Some o ->
    (iterations (generator (state o)) <= 1)%nat.
Proof.
  intros Hfresh. revert h; induction ops as [|op ops IH]; intros h Hobjs i o Ho.
  { apply (Hobjs i o Ho). }
  cbn [Fluent.exec foldl] in Ho.
  refine (IH (step h op) _ i o Ho). clear i o Ho.
  intros i o Ho. destruct op as [prompt|ref v]; cbn [Fluent.step] in Ho.
  - unfold Fluent.query in Ho.
    destruct (sessionId (session h)) as [sid|];
      [destruct (truthy sid)|]; cbn [snd objects] in Ho;
      apply lookup_snoc_Some in Ho;
      (destruct Ho as [[_ Ho]|[_ <-]]; [apply (Hobjs i o Ho)|]);
      cbn; rewrite Hfresh; auto.
  - destruct (objects h !! ref) as [o0|] eqn:Href.
    + destruct (call_state ref v h o0 Href) as (o' & Hobj & Hst).
      rewrite Hobj in Ho. apply list_lookup_insert_Some in Ho.
      destruct Ho as [(_ & <- & _)|(_ & Ho)]; [|apply (Hobjs i o Ho)].
      rewrite Hst.
      destruct (Hobjs ref o0 Href) as [H0 H1].
      destruct (consume_iterations (state o0) H0 H1) as [Hc Hi].
      split; [rewrite Hc; discriminate|exact Hi].
    + rewrite call_nothing in Ho by exact Href. apply (Hobjs i o Ho).
Qed.

End Sessions.

(** Two turns in a row: the identifier of the first turn is kept, and the
    second query carries it. *)
Lemma session_id_is_kept_over_two_turns :
  Fluent.capture_is_final Fluent.twoSessions Fluent.noJSON
    [Fluent.Query "a"; Fluent.Call 0 Parser.asText;
     Fluent.Query "b"; Fluent.Call 1 Parser.getSessionId]
    (Fluent.start ∅).
Proof.
  exact (proj1 (session_id_is_kept_in_sequential_use
                  Fluent.twoSessions Fluent.noJSON
                  [Fluent.Query "a"; Fluent.Call 0 Parser.asText;
                   Fluent.Query "b"; Fluent.Call 1 Parser.getSessionId]
                  ∅ eq_refl)).
Defined.

Example second_turn_carries_first_id :
  (Fluent.sent <$>
     Fluent.objects
       (Fluent.exec Fluent.twoSessions Fluent.noJSON
          [Fluent.Query "a"; Fluent.Call 0 Parser.asText; Fluent.Query "b"]
          (Fluent.start ∅))) !! 1%nat
  = Some ("b", <["sessionId" := JStr "S1"]> ∅).
Proof. vm_compute. reflexivity. Qed.

(** C4 as stated fails: of two responses requested before either is
    drained, the second one drained replaces the identifier stored by the
    first. *)
Lemma pending_response_overwrites_session_id :
  ~ Fluent.capture_is_final Fluent.twoSessions Fluent.noJSON
      [Fluent.Query "a"; Fluent.Query "b";
       Fluent.Call 0 Parser.asText; Fluent.Call 1 Parser.asText]
      (Fluent.start ∅).
Proof.
  intros H. specialize (H 3%nat "S1" eq_refl).
  vm_compute in H. discriminate H.
Qed.

(** ** An undefined timeout *)

(** A timeout key written as [undefined] replaces the default: no timer
    is set. *)
Example explicit_undefined_timeout_sets_no_timer :
  let r := run (processQuery (stubEnv [])
                  (constructor (stubEnv []) "hi" ∅
                     (configWithUndefinedTimeout [sleeper 45000])).1)
               (world0 "hi" ∅) in
  r.1.1 = Normal tt /\ timers (store r.2) = [].
Proof. vm_compute. repeat split. Qed.

(** ** The original flow: completion and cleanup *)

Section FlowMore.

Variable env : Env.

Lemma parseMessage_thrownFor (output : CLI.Output) :
  is_error output = true ->
  parseMessage env output = Thrown (thrownFor env output).
Proof.
  unfold is_error, parseMessage, thrownFor. intros He.
  apply String.eqb_eq in He. rewrite He. reflexivity.
Qed.

Lemma flow_completion_firstError (rs : list CLI.Output) (tail : option JsError) :
  flow_completion env rs tail
  = match firstError rs with
    | Some output => Thrown (thrownFor env output)
    | None => match tail with Some e => Thrown e | None => Normal tt end
    end.
Proof.
  induction rs as [|output rest IH]; [reflexivity|].
  cbn [flow_completion firstError].
  destruct (is_error output) eqn:He.
  - rewrite (parseMessage_thrownFor output He). reflexivity.
  - rewrite (parseMessage_surfaced env output He). exact IH.
Qed.

(** X1: however the flow ends, the transport is connected once and
    disconnected once, last; the prompt, the options and the context
    objects of the client are left as they were. *)
Theorem executeOriginalFlow_always_disconnects (w : World) :
  let w' := (run (executeOriginalFlow env) w).2 in
  trace (store w')
  = trace (store w)
    ++ [EvSpawn (this_prompt (store w)) (this_options (store w)); EvDisconnect]
  /\ this_prompt (store w') = this_prompt (store w)
  /\ this_options (store w') = this_options (store w)
  /\ heap (store w') = heap (store w).
Proof.
  intros w'. subst w'. rewrite run_executeOriginalFlow. cbn.
  rewrite <- app_assoc. repeat split.
Qed.

(** X2: the flow fails with the spawn failure if the process cannot be
    started, else with the typed error of the first error record whatever
    follows it, else with the failure of the stream; otherwise it completes
    normally. *)
Theorem executeOriginalFlow_completion (w : World) :
  let b := subprocess env (this_prompt (store w)) (this_options (store w)) in
  (run (executeOriginalFlow env) w).1.1
  = match spawn_failure b with
    | Some e => Thrown e
    | None =>
        match firstError (records b) with
        | Some output => Thrown (thrownFor env output)
        | None =>
            match stream_failure b with
            | Some e => Thrown e
            | None => Normal tt
            end
        end
    end.
Proof.
  intros b. rewrite run_executeOriginalFlow. fold b. cbn [fst].
  destruct (spawn_failure b); [reflexivity|].
  apply flow_completion_firstError.
Qed.

End FlowMore.

(** ** The chain: short circuits, nested failures, local recovery *)

Section ChainMore.

Variable env : Env.

Lemma rewrapped_stack (ps : list ProbeSpec) (e : JsError) :
  stack (rewrapped env ps e) = stack e.
Proof. induction ps as [|p ps IH]; [reflexivity|]. exact IH. Qed.

Lemma rewrapped_message (ps : list ProbeSpec) (e : JsError) :
  message (rewrapped env ps e)
  = wrappedMessage (probe_name <$> ps) (message e).
Proof.
  induction ps as [|p ps IH]; [reflexivity|].
  change (message (rewrapped env (p :: ps) e))
    with ("Interceptor '" +:+ displayName (probe_name p) +:+ "' failed: "
          +:+ message (rewrapped env ps e)).
  rewrite IH. reflexivity.
Qed.

Lemma rewrapped_cls (ps : list ProbeSpec) (e : JsError) :
  cls e = ErrorC -> cls (rewrapped env ps e) = ErrorC.
Proof. intros He. destruct ps; [exact He|reflexivity]. Qed.

Lemma wrappedMessage_app (names names' : list string) (msg : string) :
  wrappedMessage (names ++ names') msg
  = wrappedMessage names (wrappedMessage names' msg).
Proof. unfold wrappedMessage. apply foldr_app. Qed.

Lemma terminal_entries_logs (evs : list Event) (s : Store) :
  terminal_entries (trace (logs evs s))
  = (terminal_entries (trace s) + terminal_entries evs)%nat.
Proof. rewrite trace_logs. apply terminal_entries_app. Qed.

(** X3: an interceptor that returns without calling [next] ends the
    descent: the interceptors registered after it and the final handler are
    not entered, and its response travels back through the interceptors
    registered before it. *)
Theorem short_circuit_skips_the_rest (cfg : InterceptorConfig)
    (ps : list ProbeSpec) (fname : string) (response : InterceptorResponse)
    (rest : list Interceptor)
    (request : InterceptorRequest) (context : CtxRef) (w : World) :
  let r := run (buildInterceptorChain env
                  (client (probes 0 ps ++ shortCircuit fname response :: rest)
                     cfg)
                  request context) w in
  r.1.1 = Normal (outward ps response)
  /\ trace (store r.2)
     = trace (store w) ++ enters 0 ps request ++ exits 0 ps
  /\ terminal_entries (trace (store r.2)) = terminal_entries (trace (store w)).
Proof.
  intros r. subst r.
  rewrite buildInterceptorChain_foldr. cbn [client client_interceptors].
  rewrite foldr_app, run_probes. cbn [foldr].
  rewrite run_guarded. cbn [shortCircuit invoke run fst snd upd store].
  rewrite !trace_logs, <- app_assoc. repeat split.
  rewrite !terminal_entries_app, terminal_entries_enters,
    terminal_entries_exits. lia.
Qed.

(** X4: a failure that no interceptor catches is wrapped once by every
    layer it passes, the failing interceptor's innermost and index 0
    outermost; the stack stays the original one; the enclosing interceptors
    do not get to return, and neither the later interceptors nor the final
    handler are entered. *)
Theorem failure_is_wrapped_by_every_layer (cfg : InterceptorConfig)
    (ps : list ProbeSpec) (fname : string) (e : JsError)
    (rest : list Interceptor)
    (request : InterceptorRequest) (context : CtxRef) (w : World) :
  let r := run (buildInterceptorChain env
                  (client (probes 0 ps ++ thrower fname e :: rest) cfg)
                  request context) w in
  exists e',
    r.1.1 = Thrown e'
    /\ cls e' = ErrorC
    /\ stack e' = stack e
    /\ message e'
       = wrappedMessage ((probe_name <$> ps) ++ [fname]) (message e)
    /\ trace (store r.2) = trace (store w) ++ enters 0 ps request
    /\ terminal_entries (trace (store r.2))
       = terminal_entries (trace (store w)).
Proof.
  intros r. subst r. rewrite run_probes_around_thrower. cbn [fst snd].
  eexists. split; [reflexivity|].
  split; [apply rewrapped_cls; reflexivity|].
  split; [rewrite rewrapped_stack; reflexivity|].
  split; [rewrite rewrapped_message, wrappedMessage_app; reflexivity|].
  cbn [upd store]. rewrite trace_logs. split; [reflexivity|].
  rewrite terminal_entries_app, terminal_entries_enters. lia.
Qed.

(** X5: an interceptor that catches the failure of [next] and returns a
    fallback contains it: the interceptors registered before it see a
    normal response and the invocation of the chain succeeds. *)
Theorem local_catch_contains_failure (cfg : InterceptorConfig)
    (ps qs : list ProbeSpec) (k : nat) (fname fname' : string)
    (fallback : InterceptorResponse) (e : JsError) (rest : list Interceptor)
    (request : InterceptorRequest) (context : CtxRef) (w : World) :
  let r := run (buildInterceptorChain env
                  (client (probes 0 ps
                           ++ catcher fname fallback
                           :: probes k qs ++ thrower fname' e :: rest) cfg)
                  request context) w in
  r.1.1 = Normal (outward ps fallback)
  /\ trace (store r.2)
     = trace (store w) ++ enters 0 ps request
       ++ enters k qs (innermost ps request) ++ exits 0 ps.
Proof.
  intros r. subst r.
  rewrite buildInterceptorChain_foldr. cbn [client client_interceptors].
  rewrite foldr_app, run_probes. cbn [foldr].
  rewrite run_guarded. cbn [catcher invoke].
  rewrite run_tryCatch, foldr_app, run_probes. cbn [foldr].
  rewrite run_guarded. cbn [thrower invoke run orCatch fst snd upd store].
  rewrite !trace_logs, <- !app_assoc. split; reflexivity.
Qed.

End ChainMore.

(** ** An intercepted invocation, end to end *)

Section Invocation.

Variable env : Env.

Lemma logs_eq (evs : list Event) (s : Store) :
  logs evs s
  = {| this_prompt := this_prompt s; this_options := this_options s;
       heap := heap s; entropy := entropy s; timers := timers s;
       trace := trace s ++ evs |}.
Proof.
  revert s; induction evs as [|ev evs IH]; intros s.
  - destruct s. cbn. rewrite app_nil_r. reflexivity.
  - change (logs (ev :: evs) s) with (logs evs (log ev s)).
    rewrite IH. cbn. rewrite <- app_assoc. reflexivity.
Qed.

Lemma run_probe_chain (cfg : InterceptorConfig) (ps : list ProbeSpec)
    (request : InterceptorRequest) (context : CtxRef) (w : World) :
  run (buildInterceptorChain env (client (probes 0 ps) cfg) request context) w
  = (Normal (outward ps (terminalResponse env (heap (store w)) context)), [],
     afterChain ps request w).
Proof.
  rewrite buildInterceptorChain_foldr. cbn [client client_interceptors].
  rewrite run_probes, run_finalHandler. unfold afterChain.
  cbn [upd store]. rewrite !logs_eq. reflexivity.
Qed.

Lemma afterChain_fields (ps : list ProbeSpec) (request : InterceptorRequest)
    (w : World) :
  this_prompt (store (afterChain ps request w)) = this_prompt (store w)
  /\ this_options (store (afterChain ps request w))
     = spread (this_options (store w)) (options (innermost ps request))
  /\ heap (store (afterChain ps request w)) = heap (store w)
  /\ now (afterChain ps request w) = now w.
Proof. unfold afterChain. cbn [upd store now]. rewrite !logs_eq. repeat split. Qed.

Lemma outward_messages (ps : list ProbeSpec) (r : InterceptorResponse) :
  Forall keeps_messages ps -> messages (outward ps r) = messages r.
Proof.
  induction 1 as [|p ps Hp _ IH]; [reflexivity|].
  cbn. rewrite Hp. exact IH.
Qed.

(** X6: a chain of interceptors that each call [next] once and hand the
    message stream back answers with the original flow as its message
    stream, and leaves the client with its own prompt and with the options
    of the innermost request merged over its options. So, when the stream
    is consumed, the process is started with the client's own prompt and
    with the merged options: what the interceptors did to the prompt of
    the request does not reach it. *)
Theorem intercepted_invocation_keeps_prompt (cfg : InterceptorConfig)
    (ps : list ProbeSpec) (request : InterceptorRequest) (context : CtxRef)
    (w : World) :
  Forall keeps_messages ps ->
  let merged :=
    spread (this_options (store w)) (options (innermost ps request)) in
  exists response w1,
    run (buildInterceptorChain env (client (probes 0 ps) cfg) request context)
      w
    = (Normal response, [], w1)
    /\ messages response = executeOriginalFlow env
    /\ this_prompt (store w1) = this_prompt (store w)
    /\ this_options (store w1) = merged
    /\ trace (store (run (messages response) w1).2)
       = trace (store w1)
         ++ [EvSpawn (this_prompt (store w)) merged; EvDisconnect].
Proof.
  intros Hkeep merged. rewrite run_probe_chain. eexists _, _.
  split; [reflexivity|].
  destruct (afterChain_fields ps request w) as (Hp & Ho & _ & _).
  rewrite outward_messages by exact Hkeep. cbn [terminalResponse messages].
  split; [reflexivity|]. split; [exact Hp|]. split; [exact Ho|].
  rewrite run_executeOriginalFlow. cbn [snd upd store log trace].
  rewrite Hp, Ho, <- app_assoc. reflexivity.
Qed.

End Invocation.

Lemma intercepted_invocation_keeps_prompt_rewriter :
  let env := stubEnv [rawRecord "assistant"] in
  let w := world0 "hi" ∅ in
  let merged :=
    spread (this_options (store w))
      (options (innermost [rewriter] (request0 "hi"))) in
  exists response w1,
    run (buildInterceptorChain env (client (probes 0 [rewriter]) emptyConfig)
           (request0 "hi") 0%nat) w
    = (Normal response, [], w1)
    /\ messages response = executeOriginalFlow env
    /\ this_prompt (store w1) = this_prompt (store w)
    /\ this_options (store w1) = merged
    /\ trace (store (run (messages response) w1).2)
       = trace (store w1)
         ++ [EvSpawn (this_prompt (store w)) merged; EvDisconnect].
Proof.
  apply (intercepted_invocation_keeps_prompt
           (stubEnv [rawRecord "assistant"]) emptyConfig
           [rewriter] (request0 "hi") 0%nat (world0 "hi" ∅)).
  repeat constructor.
Defined.

(** The process is started with the prompt ["hi"], not with the rewritten
    one, and with the model the interceptor selected. *)
Example rewritten_prompt_does_not_reach_the_process :
  let env := stubEnv [rawRecord "assistant"] in
  let r := run (buildInterceptorChain env
                  (client (probes 0 [rewriter]) emptyConfig)
                  (request0 "hi") 0%nat) (world0 "hi" ∅) in
  match r.1.1 with
  | Normal response => trace (store (run (messages response) r.2).2)
  | Thrown _ => []
  end
  = [EvEnter 0 "hi"; EvTerminal "REWRITTEN"; EvExit 0;
     EvSpawn "hi" (<["model" := JStr "opus"]> ∅); EvDisconnect].
Proof. vm_compute. reflexivity. Qed.

(** ** The pre-built interceptors *)

Section Builtins.

Variable env : Env.

Lemma lookup_modifyContext (context : CtxRef) (f : Ctx.t -> Ctx.t)
    (s : Store) (c : Ctx.t) :
  heap s !! context = Some c ->
  heap (modifyContext context f s) !! context = Some (f c).
Proof.
  intros Hc. unfold modifyContext. rewrite Hc. cbn.
  apply list_lookup_insert_eq. eapply lookup_lt_Some. exact Hc.
Qed.

Lemma debugOn_modifyContext (context : CtxRef) (f : Ctx.t -> Ctx.t) (s : Store) :
  (forall c, Ctx.extra (f c) = Ctx.extra c) ->
  debugOn (heap (modifyContext context f s)) context
  = debugOn (heap s) context.
Proof.
  intros Hf. unfold debugOn.
  destruct (heap s !! context) as [c|] eqn:Hc.
  - rewrite (lookup_modifyContext context f s c Hc), Hf. reflexivity.
  - unfold modifyContext. rewrite Hc. rewrite Hc. reflexivity.
Qed.

Variable console : ConsoleLine -> Promise unit.

Lemma run_whenDebug_off (context : CtxRef)
    (line : list Ctx.t -> ConsoleLine) (w : World) :
  debugOn (heap (store w)) context = false ->
  run (whenDebug console context line) w = (Normal tt, [], w).
Proof. intros Hd. unfold whenDebug. cbn [run]. rewrite Hd. reflexivity. Qed.


(** X9: with [context.debug] off, a failure of the stage passes through
    [loggingInterceptor] unchanged. *)
Theorem loggingInterceptor_rethrows (request : InterceptorRequest)
    (context : CtxRef) (next : Next) (w w2 : World)
    (e : JsError) (ys : list Empty_set) :
  let w1 :=
    upd (modifyContext context (fun c =>
           with_metrics (Some (metrics_started (Ctx.metrics c) (now w))) c))
      w in
  debugOn (heap (store w)) context = false ->
  run (next request context) w1 = (Thrown e, ys, w2) ->
  debugOn (heap (store w2)) context = false ->
  run (invoke (loggingInterceptor env console) request context next) w
  = (Thrown e, ys, w2).
Proof.
  intros w1 Hd Hnext Hd2.
  cbn [loggingInterceptor invoke run]. fold w1.
  rewrite run_mbind, run_whenDebug_off
    by (subst w1; cbn [upd store]; rewrite debugOn_modifyContext;
        [exact Hd|reflexivity]).
  cbn [andThen]. rewrite run_tryCatch, run_mbind, Hnext.
  cbn [andThen orCatch run]. rewrite run_mbind, run_whenDebug_off by exact Hd2.
  cbn. rewrite !app_nil_r. reflexivity.
Qed.

End Builtins.


Lemma loggingInterceptor_rethrows_boom :
  run (invoke (loggingInterceptor (stubEnv []) quietConsole)
         (request0 "hi") 0%nat failingNext) startedWorld
  = (Thrown boom, [],
     tick 30
       (upd (modifyContext 0%nat (fun c =>
               with_metrics (Some (metrics_started (Ctx.metrics c) 0)) c))
          startedWorld)).
Proof.
  exact (loggingInterceptor_rethrows (stubEnv []) quietConsole
           (request0 "hi") 0%nat failingNext startedWorld _ boom []
           eq_refl eq_refl eq_refl).
Defined.

Lemma run_optional_tag {Y A} (b : bool) (k : string -> Prog Y A) (w : World) :
  run ((if b then Ret "" else randomTag) ≫= k) w
  = if b then run (k "") w
    else run (k (hd "" (entropy (store w)))) (drawn w).
Proof.
  destruct b; [reflexivity|].
  rewrite run_mbind. unfold randomTag, drawn. cbn [run].
  destruct (entropy (store w)); cbn [run andThen hd]; apply run_eta.
Qed.

Lemma drawn_fields (w : World) :
  heap (store (drawn w)) = heap (store w)
  /\ this_prompt (store (drawn w)) = this_prompt (store w)
  /\ this_options (store (drawn w)) = this_options (store w)
  /\ trace (store (drawn w)) = trace (store w)
  /\ now (drawn w) = now w.
Proof. unfold drawn. destruct (entropy (store w)); repeat split. Qed.

(** X10: [correlationInterceptor] calls [next] once, with the request it
    was given, after making sure the shared context carries a correlation
    identifier and a request identifier: an identifier that is already
    there is kept, a missing one is generated, the timestamp is set to the
    current time, and no other property of the context is touched. *)
Theorem correlationInterceptor_fills_context (request : InterceptorRequest)
    (context : CtxRef) (next : Next) (w : World) (c : Ctx.t) :
  heap (store w) !! context = Some c ->
  exists c' w',
    run (invoke correlationInterceptor request context next) w
    = run (next request context) w'
    /\ now w' = now w
    /\ heap (store w') = <[context := c']> (heap (store w))
    /\ this_prompt (store w') = this_prompt (store w)
    /\ this_options (store w') = this_options (store w)
    /\ trace (store w') = trace (store w)
    /\ truthy_opt (Ctx.correlationId c') = true
    /\ truthy_opt (Ctx.requestId c') = true
    /\ (truthy_opt (Ctx.correlationId c) = true ->
        Ctx.correlationId c' = Ctx.correlationId c)
    /\ (truthy_opt (Ctx.requestId c) = true ->
        Ctx.requestId c' = Ctx.requestId c)
    /\ Ctx.timestamp c' = Some (now w)
    /\ with_metrics None
         (Ctx.with_timestamp None
            (Ctx.with_requestId None (Ctx.with_correlationId None c')))
       = with_metrics None
           (Ctx.with_timestamp None
              (Ctx.with_requestId None (Ctx.with_correlationId None c)))
    /\ Ctx.metrics c' = Ctx.metrics c.
Proof.
  intros Hc. cbn [correlationInterceptor invoke run]. rewrite Hc.
  rewrite run_optional_tag.
  destruct (truthy_opt (Ctx.correlationId c)) eqn:Hcor; cbn [run];
    rewrite run_optional_tag.
  - destruct (truthy_opt (Ctx.requestId c)) eqn:Hreq; cbn [run].
    + exists (Ctx.with_timestamp (Some (now w)) c). eexists.
      split; [reflexivity|]. cbn. rewrite Hcor, Hreq. repeat split.
    + destruct (drawn_fields w) as (Hh & Hp & Ho & Htr & Hn).
      eexists. eexists. split; [reflexivity|].
      cbn [upd store now set_heap heap this_prompt this_options trace].
      rewrite Hh, Hp, Ho, Htr, Hn.
      split; [reflexivity|]. split; [reflexivity|].
      cbn. rewrite Hcor. repeat split. congruence.
  - cbn [Ctx.with_correlationId Ctx.requestId].
    destruct (drawn_fields w) as (Hh & Hp & Ho & Htr & Hn).
    destruct (truthy_opt (Ctx.requestId c)) eqn:Hreq; cbn [run].
    + eexists. eexists. split; [reflexivity|].
      cbn [upd store now set_heap heap this_prompt this_options trace].
      rewrite Hh, Hp, Ho, Htr, Hn.
      split; [reflexivity|]. split; [reflexivity|].
      cbn. rewrite Hreq. repeat split. congruence.
    + destruct (drawn_fields (drawn w)) as (Hh' & Hp' & Ho' & Htr' & Hn').
      eexists. eexists. split; [reflexivity|].
      cbn [upd store now set_heap heap this_prompt this_options trace].
      rewrite Hh', Hp', Ho', Htr', Hn', Hh, Hp, Ho, Htr, Hn.
      split; [reflexivity|]. split; [reflexivity|].
      cbn. repeat split; congruence.
Qed.

Lemma correlationInterceptor_fills_started_context :
  exists c' w',
    run (invoke correlationInterceptor (request0 "hi") 0%nat slowNext)
        startedWorld
    = run (slowNext (request0 "hi") 0%nat) w'
    /\ truthy_opt (Ctx.correlationId c') = true
    /\ Ctx.requestId c' = Some "req-0-"
    /\ heap (store w') = [c'].
Proof.
  destruct (correlationInterceptor_fills_context (request0 "hi") 0%nat
              slowNext startedWorld (freshContext (world0 "hi" ∅)) eq_refl)
    as (c' & w' & Hrun & _ & Hheap & _ & _ & _ & Hcor & _ & _ & Hreq & _).
  exists c', w'. repeat split; [exact Hrun|exact Hcor|apply Hreq; reflexivity|
                                 exact Hheap].
Defined.

(** ** More on session continuation *)

Section SessionsMore.

Import Parser Fluent.

Variable baseQuery : string -> ClaudeCodeOptions -> Generator.
Variable parseJSON : string -> option JsValue.



Local Abbreviation step := (Fluent.step baseQuery parseJSON).
Local Abbreviation exec := (Fluent.exec baseQuery parseJSON).

(** What every use of a session maintains, sequential or not. *)
Lemma stored_id_was_reported (ops : list Op) (h : Heap) :
  (forall sid, sessionId (session h) = Some sid ->
     truthy sid = true
     /\ exists i o, objects h !! i = Some o
                    /\ class o = SessionAware /\ latent o = Some sid) ->
  forall sid, sessionId (session (exec ops h)) = Some sid ->
    truthy sid = true
    /\ exists i o, objects (exec ops h) !! i = Some o
                   /\ class o = SessionAware /\ latent o = Some sid.
Proof.
  revert h; induction ops as [|op ops IH]; intros h Hh; [exact Hh|].
  cbn [Fluent.exec foldl]. apply (IH (step h op)). clear IH.
  intros sid Hsid. destruct op as [prompt|ref v]; cbn [Fluent.step] in *.
  - destruct (query_object baseQuery prompt h) as (o & Hq & _).
    rewrite Hq in Hsid |- *. cbn [session sessionId objects] in *.
    destruct (Hh sid Hsid) as (Ht & i & o1 & Hi & Hc & Hl).
    split; [exact Ht|]. exists i, o1. split; [|auto].
    apply lookup_app_l_Some. exact Hi.
  - destruct (objects h !! ref) as [o|] eqn:Ho.
    + destruct (call_object parseJSON ref v h o Ho)
        as (o' & Hcall & Hcls & Hlat & _).
      rewrite Hcall in Hsid |- *. cbn [session objects] in *.
      unfold onSessionId in Hsid.
      destruct (truthy_opt (latent o)) eqn:Hhot.
      * cbn [sessionId] in Hsid.
        split; [rewrite Hsid in Hhot; exact Hhot|].
        exists ref, o'. split.
        { apply list_lookup_insert_eq. eapply lookup_lt_Some. exact Ho. }
        split; [|congruence].
        rewrite Hcls. unfold latent in Hsid. destruct (class o);
          [discriminate Hsid|reflexivity].
      * destruct (Hh sid Hsid) as (Ht & i & o1 & Hi & Hc & Hl).
        split; [exact Ht|].
        destruct (decide (i = ref)) as [->|Hne].
        -- exists ref, o'. split.
           { apply list_lookup_insert_eq. eapply lookup_lt_Some. exact Ho. }
           assert (o1 = o) as -> by congruence.
           split; congruence.
        -- exists i, o1. split; [|auto].
           rewrite list_lookup_insert_ne by congruence. exact Hi.
    + rewrite call_nothing in Hsid |- * by exact Ho. exact (Hh sid Hsid).
Qed.

(** X12: whatever is queried and called on a session, in whatever order,
    the identifier it stores is never made up and never empty: it is the
    identifier which the drained stream of one of its session-aware
    responses reports. *)
Theorem stored_session_id_comes_from_a_response (ops : list Op)
    (options0 : ClaudeCodeOptions) :
  match sessionId (session (exec ops (start options0))) with
  | None => True
  | Some sid =>
      truthy sid = true
      /\ exists i o,
           objects (exec ops (start options0)) !! i = Some o
           /\ class o = SessionAware /\ latent o = Some sid
  end.
Proof.
  destruct (sessionId (session (exec ops (start options0)))) as [sid|] eqn:Hs;
    [|exact I].
  apply (stored_id_was_reported ops (start options0)); [|exact Hs].
  intros sid' H. discriminate H.
Qed.

End SessionsMore.

(** ** The role registry *)

Section Registry.

Import Roles.

Lemma map_get_set (k k' : string) (v : RoleConfig) (m : RoleMap) :
  map_get k' (map_set k v m)
  = if String.eqb k k' then Some v else map_get k' m.
Proof.
  induction m as [|[k0 v0] m IH]; cbn [map_set map_get].
  - reflexivity.
  - destruct (String.eqb_spec k0 k) as [->|Hne]; cbn [map_get].
    + destruct (String.eqb k k'); reflexivity.
    + rewrite IH. destruct (String.eqb_spec k0 k') as [->|Hne'];
        [|reflexivity].
      destruct (String.eqb_spec k k'); [congruence|reflexivity].
Qed.

Lemma map_has_keys (k : string) (m : RoleMap) :
  map_has k m = true <-> k ∈ m.*1.
Proof.
  unfold map_has. induction m as [|[k0 v0] m IH]; cbn [map_get fmap list_fmap].
  - split; [discriminate|]. intros H. inversion H.
  - cbn. destruct (String.eqb_spec k0 k) as [->|Hne].
    + split; [intros _; left|reflexivity].
    + rewrite IH. rewrite elem_of_cons. split; [auto|].
      intros [->|H]; [congruence|exact H].
Qed.

Lemma map_set_keys (k : string) (v : RoleConfig) (m : RoleMap) :
  (map_set k v m).*1 = if map_has k m then m.*1 else m.*1 ++ [k].
Proof.
  unfold map_has. induction m as [|[k0 v0] m IH]; cbn [map_set map_get];
    [reflexivity|].
  destruct (String.eqb_spec k0 k) as [->|Hne]; [reflexivity|].
  cbn. rewrite IH. destruct (map_get k m); reflexivity.
Qed.

Lemma map_get_delete (k k' : string) (m : RoleMap) :
  map_get k' (map_delete k m).2
  = if String.eqb k k' then None else map_get k' m.
Proof.
  cbn [map_delete snd].
  induction m as [|[k0 v0] m IH]; cbn [map_get].
  - destruct (String.eqb k k'); reflexivity.
  - rewrite filter_cons. cbn [fst].
    destruct (String.eqb_spec k0 k) as [->|Hne]; cbn [negb].
    + destruct (decide (Is_true false)) as [[]|_]. rewrite IH.
      destruct (String.eqb k k'); reflexivity.
    + destruct (decide (Is_true true)) as [_|n]; [|exfalso; apply n; exact I].
      cbn [map_get]. rewrite IH.
      destruct (String.eqb_spec k0 k') as [->|Hne']; [|reflexivity].
      destruct (String.eqb_spec k k'); [congruence|reflexivity].
Qed.

Lemma wellFormed_set (role : RoleConfig) (m : RoleMap) :
  wellFormed m -> wellFormed (register role m).
Proof.
  intros [Hnd Hnm]. unfold register. split.
  - rewrite map_set_keys. destruct (map_has (name role) m) eqn:Hh;
      [exact Hnd|].
    apply NoDup_app. split; [exact Hnd|]. split; [|apply NoDup_singleton].
    intros x Hx Hin. apply list_elem_of_singleton in Hin. subst x.
    apply map_has_keys in Hx. congruence.
  - clear Hnd. induction Hnm as [|[k0 v0] m Hk Hm IH]; cbn [map_set].
    + constructor; [reflexivity|constructor].
    + destruct (String.eqb k0 (name role)); constructor;
        [reflexivity|exact Hm|exact Hk|exact IH].
Qed.

Lemma wellFormed_delete (k : string) (m : RoleMap) :
  wellFormed m -> wellFormed (map_delete k m).2.
Proof.
  intros [Hnd Hnm]. cbn [map_delete snd]. split.
  - eapply sublist_NoDup; [exact Hnd|apply fmap_sublist, sublist_filter].
  - apply Forall_forall. intros x Hx. apply list_elem_of_filter in Hx.
    rewrite Forall_forall in Hnm. apply Hnm, Hx.
Qed.

(** X13: a registry built by any sequence of registrations, removals and
    clearings holds at most one role per name, each under its own name: a
    registration under a name that is taken replaces the role and adds no
    entry. *)
Theorem registry_is_well_formed (ops : list RegistryOp) :
  wellFormed (foldl applyOp [] ops).
Proof.
  assert (forall m, wellFormed m -> wellFormed (foldl applyOp m ops)) as H.
  { induction ops as [|op ops IH]; intros m Hm; [exact Hm|].
    cbn [foldl]. apply IH. destruct op as [role|n|]; cbn [applyOp].
    - apply wellFormed_set. exact Hm.
    - apply wellFormed_delete. exact Hm.
    - split; constructor. }
  apply H. split; constructor.
Qed.

(** X14: looking a role up after a registration or a removal: the role
    just registered is returned under its name, a removed name is gone,
    and every other name answers as before. A new name goes to the end of
    the listing, a name that is taken keeps its place, and removing reports
    whether the name was there. *)
Theorem registry_lookup (role : RoleConfig) (n n' : string) (roles : RoleMap) :
  get n' (register role roles)
  = (if String.eqb (name role) n' then Some role else get n' roles)
  /\ get n' (remove n roles).2
     = (if String.eqb n n' then None else get n' roles)
  /\ (remove n roles).1 = has n roles
  /\ (register role roles).*1
     = (if has (name role) roles then roles.*1 else roles.*1 ++ [name role]).
Proof.
  split; [apply map_get_set|]. split; [apply map_get_delete|].
  split; [reflexivity|apply map_set_keys].
Qed.

End Registry.

(** ** Applying a role *)

Section ApplyRole.

Import Roles.

Variable env : Env.

Lemma lookup_setIf (c : bool) (k k' : string) (v : JsValue)
    (o : ClaudeCodeOptions) :
  setIf c k v o !! k' = if c && String.eqb k k' then Some v else o !! k'.
Proof.
  unfold setIf. destruct c; [|reflexivity]. cbn [andb].
  destruct (String.eqb_spec k k') as [->|Hne].
  - apply lookup_insert_eq.
  - apply lookup_insert_ne. exact Hne.
Qed.

Lemma findOverride_None (k : string) (ovs : list (bool * string * JsValue)) :
  k ∉ (fun ov => ov.1.2) <$> ovs -> findOverride k ovs = None.
Proof.
  induction ovs as [|ov ovs IH]; [reflexivity|].
  cbn [fmap list_fmap findOverride]. intros Hk.
  apply not_elem_of_cons in Hk. destruct Hk as [Hne Hk].
  destruct (String.eqb_spec ov.1.2 k); [congruence|]. apply IH, Hk.
Qed.

Lemma lookup_applyOverrides (ovs : list (bool * string * JsValue))
    (o : ClaudeCodeOptions) (k : string) :
  NoDup ((fun ov => ov.1.2) <$> ovs) ->
  applyOverrides ovs o !! k
  = match findOverride k ovs with
    | Some (true, v) => Some v
    | _ => o !! k
    end.
Proof.
  revert o; induction ovs as [|ov ovs IH]; intros o Hnd; [reflexivity|].
  cbn [fmap list_fmap] in Hnd. apply NoDup_cons in Hnd.
  destruct Hnd as [Hk Hnd].
  change (applyOverrides (ov :: ovs) o)
    with (applyOverrides ovs (setIf ov.1.1 ov.1.2 ov.2 o)).
  rewrite (IH _ Hnd). cbn [findOverride].
  destruct (String.eqb_spec ov.1.2 k) as [<-|Hne].
  - rewrite (findOverride_None _ _ Hk), lookup_setIf, String.eqb_refl.
    destruct ov.1.1; reflexivity.
  - destruct (findOverride k ovs) as [[[|] v]|];
      rewrite ?lookup_setIf; try reflexivity;
      destruct (String.eqb_spec ov.1.2 k); try congruence;
      rewrite andb_false_r; reflexivity.
Qed.

Lemma overrides_keys (role : RoleConfig) (base : ClaudeCodeOptions) :
  (fun ov => ov.1.2) <$> overrides role base = scalarKeys ++ listKeys.
Proof. reflexivity. Qed.

Lemma specialKeys_NoDup : NoDup (scalarKeys ++ listKeys).
Proof. apply (bool_decide_unpack _). vm_compute. reflexivity. Qed.

Lemma applyRole_overrides (roles : RoleMap) (n : string) (role : RoleConfig)
    (base : ClaudeCodeOptions) :
  get n roles = Some role ->
  applyRole env roles n base
  = Normal (applyOverrides (overrides role base)
              (spread (default ∅ (options role)) base)).
Proof. intros Hr. unfold applyRole. rewrite Hr. reflexivity. Qed.

(** The merged options, key by key. *)
Lemma lookup_merged (role : RoleConfig) (base : ClaudeCodeOptions) (k : string) :
  applyOverrides (overrides role base)
    (spread (default ∅ (options role)) base) !! k
  = match findOverride k (overrides role base) with
    | Some (true, v) => Some v
    | _ => spread (default ∅ (options role)) base !! k
    end.
Proof.
  apply lookup_applyOverrides. rewrite overrides_keys.
  exact specialKeys_NoDup.
Qed.

Ltac split_key k :=
  repeat match goal with
         | |- context [String.eqb ?s k] =>
             destruct (String.eqb_spec s k) as [<-|?]
         end.

(** X15: what the caller set is kept: when a role is applied, an option of
    the base options whose key is not one of the four merged arrays keeps
    its value, given that a [model] or [permissionMode] is truthy and that
    a [temperature], [maxTokens], [timeout] or [debug] is not [undefined].
    Neither the role's own properties nor its [options] replace it. *)
Theorem applyRole_keeps_base_option (roles : RoleMap) (n : string)
    (role : RoleConfig) (base : ClaudeCodeOptions) (k : string) (v : JsValue) :
  get n roles = Some role ->
  base !! k = Some v ->
  k ∉ listKeys ->
  (k ∈ ["model"; "permissionMode"] -> js_truthy v = true) ->
  (k ∈ ["temperature"; "maxTokens"; "timeout"; "debug"] -> v <> JUndefined) ->
  exists o, applyRole env roles n base = Normal o /\ o !! k = Some v.
Proof.
  intros Hr Hk Hl Ht Hu. eexists. split; [apply applyRole_overrides, Hr|].
  rewrite lookup_merged.
  assert (Hs : spread (default ∅ (options role)) base !! k = Some v)
    by (apply lookup_union_Some_l, Hk).
  assert (Hund : k ∈ ["temperature"; "maxTokens"; "timeout"; "debug"] ->
                 is_undefined (read base k) = false).
  { intros Hin. unfold read. rewrite Hk. cbn.
    specialize (Hu Hin). destruct v; congruence || reflexivity. }
  assert (Htr : k ∈ ["model"; "permissionMode"] ->
                negb (js_truthy (read base k)) = false).
  { intros Hin. unfold read. rewrite Hk. cbn. rewrite (Ht Hin). reflexivity. }
  unfold overrides. cbn [findOverride fst snd].
  split_key k; try exact Hs;
    try (rewrite Htr, andb_false_r;
         [exact Hs | rewrite !elem_of_cons; tauto]);
    try (rewrite Hund, andb_false_r;
         [exact Hs | rewrite !elem_of_cons; tauto]);
    exfalso; apply Hl; unfold listKeys; rewrite !elem_of_cons; tauto.
Qed.

Lemma mergeList_prefix (base : ClaudeCodeOptions) (k : string)
    (items : list string) :
  readList base k `prefix_of` mergeList base k items.
Proof. apply prefix_app_r. reflexivity. Qed.

Lemma elem_of_mergeList (base : ClaudeCodeOptions) (k : string)
    (items : list string) (x : string) :
  x ∈ mergeList base k items <-> x ∈ readList base k \/ x ∈ items.
Proof.
  unfold mergeList. rewrite elem_of_app, list_elem_of_filter.
  destruct (decide (x ∈ readList base k)); tauto.
Qed.

Lemma mergeList_NoDup (base : ClaudeCodeOptions) (k : string)
    (items : list string) :
  NoDup (readList base k) -> NoDup items -> NoDup (mergeList base k items).
Proof.
  intros Hb Hi. unfold mergeList. apply NoDup_app. split; [exact Hb|]. split.
  - intros x Hx Hf. apply list_elem_of_filter in Hf. tauto.
  - apply NoDup_filter, Hi.
Qed.

Lemma nonEmpty_default (items : option (list string)) :
  default [] items <> [] -> nonEmpty items = true.
Proof. destruct items as [[|]|]; cbn; congruence. Qed.

(** X16: the four array options are merged, not replaced: for a role that
    holds a non-empty list under [allowedTools], [deniedTools],
    [addDirectories] or [context], the result holds under that key a list
    that starts with the base options' list, whose members are exactly the
    members of the two lists, and that has no duplicates when neither of
    the two has. *)
Theorem applyRole_merges_lists (roles : RoleMap) (n : string)
    (role : RoleConfig) (base : ClaudeCodeOptions) (k : string) :
  get n roles = Some role ->
  k ∈ listKeys ->
  roleList role k <> [] ->
  exists o l,
    applyRole env roles n base = Normal o
    /\ o !! k = Some (JList l)
    /\ readList base k `prefix_of` l
    /\ (forall x, x ∈ l <-> x ∈ readList base k \/ x ∈ roleList role k)
    /\ (NoDup (readList base k) -> NoDup (roleList role k) -> NoDup l).
Proof.
  intros Hr Hk Hne. exists (applyOverrides (overrides role base)
                              (spread (default ∅ (options role)) base)),
    (mergeList base k (roleList role k)).
  split; [apply applyRole_overrides, Hr|].
  split; [|split; [apply mergeList_prefix|
                   split; [apply elem_of_mergeList|apply mergeList_NoDup]]].
  rewrite lookup_merged. unfold listKeys in Hk.
  rewrite !elem_of_cons, elem_of_nil in Hk.
  destruct Hk as [->|[->|[->|[->|[]]]]];
    cbn [roleList String.eqb Ascii.eqb Bool.eqb] in Hne |- *;
    unfold overrides; cbn [findOverride fst snd String.eqb Ascii.eqb Bool.eqb];
    rewrite (nonEmpty_default _ Hne); reflexivity.
Qed.

Lemma applyOverrides_id (ovs : list (bool * string * JsValue))
    (o : ClaudeCodeOptions) :
  Forall (fun ov => ov.1.1 = true -> o !! ov.1.2 = Some ov.2) ovs ->
  applyOverrides ovs o = o.
Proof.
  induction 1 as [|ov ovs Hov _ IH]; [reflexivity|].
  change (applyOverrides (ov :: ovs) o)
    with (applyOverrides ovs (setIf ov.1.1 ov.1.2 ov.2 o)).
  replace (setIf ov.1.1 ov.1.2 ov.2 o) with o; [exact IH|].
  unfold setIf. destruct ov.1.1; [|reflexivity].
  symmetry. apply insert_id, Hov. reflexivity.
Qed.

Lemma applyOverrides_keeps (ovs : list (bool * string * JsValue))
    (o : ClaudeCodeOptions) (k : string) :
  is_Some (o !! k) -> is_Some (applyOverrides ovs o !! k).
Proof.
  revert o; induction ovs as [|ov ovs IH]; intros o Hk; [exact Hk|].
  change (applyOverrides (ov :: ovs) o)
    with (applyOverrides ovs (setIf ov.1.1 ov.1.2 ov.2 o)).
  apply IH. rewrite lookup_setIf.
  destruct (ov.1.1 && String.eqb ov.1.2 k); [eexists; reflexivity|exact Hk].
Qed.

Lemma spread_absorbed (ovs : list (bool * string * JsValue))
    (defaults base : ClaudeCodeOptions) :
  spread defaults (applyOverrides ovs (spread defaults base))
  = applyOverrides ovs (spread defaults base).
Proof.
  unfold spread at 1. apply map_eq. intros k.
  destruct (applyOverrides ovs (spread defaults base) !! k) as [v|] eqn:Hm.
  - apply lookup_union_Some_l, Hm.
  - apply lookup_union_None. split; [exact Hm|].
    destruct (defaults !! k) as [d|] eqn:Hd; [|reflexivity].
    assert (Hs : is_Some (applyOverrides ovs (spread defaults base) !! k)).
    { apply applyOverrides_keeps. unfold spread.
      apply lookup_union_is_Some. right. eexists; exact Hd. }
    rewrite Hm in Hs. destruct Hs as [? Hs]. discriminate Hs.
Qed.

Lemma mergeList_again (base : ClaudeCodeOptions) (k : string)
    (items l : list string) :
  (forall x, x ∈ items -> x ∈ l) ->
  l ++ filter (fun x => x ∉ l) items = l.
Proof.
  intros Hin.
  assert (Hf : filter (fun x => x ∉ l) items = []).
  { induction items as [|x items IH]; [reflexivity|].
    rewrite filter_cons. destruct (decide (x ∉ l)) as [Hx|_].
    - exfalso. apply Hx, Hin. left.
    - apply IH. intros y Hy. apply Hin. right. exact Hy. }
  rewrite Hf. apply app_nil_r.
Qed.

(** After one pass, the merged options under one of the array keys. *)
Lemma merged_list (role : RoleConfig) (base : ClaudeCodeOptions)
    (k : string) (items : option (list string)) :
  findOverride k (overrides role base)
  = Some (nonEmpty items, JList (mergeList base k (default [] items))) ->
  nonEmpty items = true ->
  let m := applyOverrides (overrides role base)
             (spread (default ∅ (options role)) base) in
  m !! k = Some (JList (mergeList m k (default [] items))).
Proof.
  intros Hf Hne m.
  assert (Hm : m !! k = Some (JList (mergeList base k (default [] items)))).
  { subst m. rewrite lookup_merged, Hf, Hne. reflexivity. }
  assert (Hl : readList m k = mergeList base k (default [] items))
    by (unfold readList; rewrite Hm; reflexivity).
  rewrite Hm. do 2 f_equal. unfold mergeList at 2. rewrite Hl.
  symmetry. apply (mergeList_again base k).
  intros x Hx. apply elem_of_mergeList. right. exact Hx.
Qed.

(** X17: applying a role is idempotent: applying the same role to the
    options that it produced changes nothing. *)
Theorem applyRole_idempotent (roles : RoleMap) (n : string)
    (base o : ClaudeCodeOptions) :
  applyRole env roles n base = Normal o ->
  applyRole env roles n o = Normal o.
Proof.
  intros H. destruct (get n roles) as [role|] eqn:Hr;
    [|unfold applyRole in H; rewrite Hr in H; discriminate H].
  rewrite (applyRole_overrides _ _ _ _ Hr) in H.
  assert (Ho : applyOverrides (overrides role base)
                 (spread (default ∅ (options role)) base) = o)
    by (injection H; intros E; exact E).
  clear H. subst o.
  rewrite (applyRole_overrides _ _ _ _ Hr).
  rewrite spread_absorbed. apply (f_equal Normal).
  set (m := applyOverrides (overrides role base)
              (spread (default ∅ (options role)) base)).
  apply applyOverrides_id. unfold overrides at 1.
  assert (Hstr : forall k (x : option string),
             findOverride k (overrides role base)
             = Some (truthy_opt x && negb (js_truthy (read base k)),
                     JStr (default "" x)) ->
             truthy_opt x && negb (js_truthy (read m k)) = true ->
             m !! k = Some (JStr (default "" x))).
  { intros k x Hf Hc. apply andb_prop in Hc. destruct Hc as [Hx Hc].
    subst m. unfold read in Hc. rewrite lookup_merged, Hf in Hc |- *.
    rewrite Hx in Hc |- *. cbn [andb] in Hc |- *.
    destruct (negb (js_truthy (read base k))) eqn:Hb; [reflexivity|].
    exfalso. unfold read, spread in Hb, Hc.
    destruct (base !! k) as [v|] eqn:Hk.
    - rewrite (lookup_union_Some_l _ _ _ _ Hk) in Hc. cbn in Hb, Hc.
      rewrite Hb in Hc. discriminate Hc.
    - discriminate Hb. }
  assert (Hdef : forall k (c : bool) (v : JsValue),
             findOverride k (overrides role base)
             = Some (c && is_undefined (read base k), v) ->
             v <> JUndefined ->
             c && is_undefined (read m k) = true ->
             m !! k = Some v).
  { intros k c v Hf Hv Hc. apply andb_prop in Hc. destruct Hc as [Hx Hc].
    subst m. unfold read in Hc. rewrite lookup_merged, Hf in Hc |- *.
    rewrite Hx in Hc |- *. cbn [andb] in Hc |- *.
    destruct (is_undefined (read base k)) eqn:Hb; [reflexivity|].
    exfalso. unfold read, spread in Hb, Hc.
    destruct (base !! k) as [b|] eqn:Hk.
    - rewrite (lookup_union_Some_l _ _ _ _ Hk) in Hc. cbn in Hb, Hc.
      rewrite Hb in Hc. discriminate Hc.
    - discriminate Hb. }
  repeat apply Forall_cons_2; try apply Forall_nil_2; cbn [fst snd].
  - apply (Hstr "model" (model role)). reflexivity.
  - apply (Hdef "temperature"); [reflexivity|discriminate].
  - apply (Hdef "maxTokens"); [reflexivity|discriminate].
  - apply (Hdef "timeout"); [reflexivity|discriminate].
  - apply (Hstr "permissionMode" (permissionMode role)). reflexivity.
  - apply (Hdef "debug"); [reflexivity|discriminate].
  - apply (merged_list role base "allowedTools" (allowedTools role)).
    reflexivity.
  - apply (merged_list role base "deniedTools" (deniedTools role)).
    reflexivity.
  - apply (merged_list role base "addDirectories" (addDirectories role)).
    reflexivity.
  - apply (merged_list role base "context" (context role)). reflexivity.
Qed.

End ApplyRole.

Section ApplyRoleExamples.

Import Roles.

Lemma applyRole_keeps_base_option_timeout :
  exists o,
    applyRole (stubEnv []) (initializeBuiltInRoles []) "debugger"
      {["timeout" := JNum 5]} = Normal o
    /\ o !! "timeout" = Some (JNum 5).
Proof.
  apply (applyRole_keeps_base_option (stubEnv []) (initializeBuiltInRoles []) "debugger"
           (default (plainRole "") (get "debugger" (initializeBuiltInRoles [])))
           {["timeout" := JNum 5]} "timeout" (JNum 5)).
  - reflexivity.
  - apply lookup_singleton_eq.
  - unfold listKeys. rewrite !elem_of_cons, elem_of_nil.
    intros H; repeat destruct H as [H|H]; try discriminate H; exact H.
  - rewrite !elem_of_cons, elem_of_nil.
    intros H; repeat destruct H as [H|H]; try discriminate H; destruct H.
  - discriminate.
Defined.

Lemma applyRole_merges_lists_analyzer :
  exists o l,
    applyRole (stubEnv []) (initializeBuiltInRoles []) "codeAnalyzer"
      {["allowedTools" := JList ["Bash"; "Read"]]} = Normal o
    /\ o !! "allowedTools" = Some (JList l)
    /\ readList {["allowedTools" := JList ["Bash"; "Read"]]} "allowedTools"
       `prefix_of` l
    /\ (forall x,
          x ∈ l <->
          x ∈ readList {["allowedTools" := JList ["Bash"; "Read"]]}
                "allowedTools"
          \/ x ∈ roleList
                 (default (plainRole "")
                    (get "codeAnalyzer" (initializeBuiltInRoles [])))
                 "allowedTools")
    /\ (NoDup (readList {["allowedTools" := JList ["Bash"; "Read"]]}
                 "allowedTools") ->
        NoDup (roleList
                 (default (plainRole "")
                    (get "codeAnalyzer" (initializeBuiltInRoles [])))
                 "allowedTools") ->
        NoDup l).
Proof.
  apply (applyRole_merges_lists (stubEnv []) (initializeBuiltInRoles []) "codeAnalyzer"
           (default (plainRole "")
              (get "codeAnalyzer" (initializeBuiltInRoles [])))
           {["allowedTools" := JList ["Bash"; "Read"]]} "allowedTools").
  - reflexivity.
  - unfold listKeys. apply elem_of_cons. left. reflexivity.
  - discriminate.
Defined.

Lemma applyRole_idempotent_writer :
  applyRole (stubEnv []) (initializeBuiltInRoles []) "codeWriter"
    (default ∅
       (match applyRole (stubEnv []) (initializeBuiltInRoles []) "codeWriter"
                {["allowedTools" := JList ["WebFetch"]]} with
        | Normal o => Some o
        | Thrown _ => None
        end))
  = Normal
      (default ∅
         (match applyRole (stubEnv []) (initializeBuiltInRoles [])
                  "codeWriter" {["allowedTools" := JList ["WebFetch"]]} with
          | Normal o => Some o
          | Thrown _ => None
          end)).
Proof.
  apply (applyRole_idempotent (stubEnv []) (initializeBuiltInRoles []) "codeWriter"
           {["allowedTools" := JList ["WebFetch"]]}).
  vm_compute. reflexivity.
Defined.

End ApplyRoleExamples.

(** ** The raw query *)

Lemma run_callSync {Y A} (f : Sync A) (w : World) :
  run (callSync (Y := Y) f) w
  = ((f (now w) (store w)).1, [],
     {| store := (f (now w) (store w)).2; now := now w |}).
Proof.
  unfold callSync. cbn [run].
  destruct (f (now w) (store w)) as [[a|e] s']; reflexivity.
Qed.

Section RawQueryFacts.

Variable options : ClaudeCodeOptions.
Variable messageHandlers : list Handler.
Variable logger : option Logger.t.

Lemma run_tell_quiet {Y} (call : Logger.t -> Sync unit) (w : World) :
  (forall l, logger = Some l -> settles (call l)) ->
  exists w', run (tell (Y := Y) logger call) w = (Normal tt, [], w').
Proof.
  intros Hq. unfold tell. destruct logger as [l|]; [|eexists; reflexivity].
  rewrite run_callSync, (Hq l eq_refl). eexists; reflexivity.
Qed.

Lemma run_tell_silent {Y} (call : Logger.t -> Sync unit) (w : World) :
  logger = None -> run (tell (Y := Y) logger call) w = (Normal tt, [], w).
Proof. intros ->. reflexivity. Qed.

Lemma run_runHandlers_quiet {Y} (handlers : list Handler) (message : Message)
    (w : World) :
  quiet logger ->
  exists w',
    run (runHandlers (Y := Y) logger handlers message) w = (Normal tt, [], w').
Proof.
  intros Hq. revert w.
  induction handlers as [|handler rest IH]; intros w; [eexists; reflexivity|].
  cbn [runHandlers]. rewrite run_mbind, run_tryCatch, run_callSync.
  destruct (handler message (now w) (store w)) as [[[]|e] s1];
    cbn [orCatch andThen fst snd].
  - destruct (IH {| store := s1; now := now w |}) as [w2 ->].
    eexists; reflexivity.
  - destruct (run_tell_quiet (Y := Y)
                (fun l => Logger.error l "Message handler error"
                            (ErrorContext e)) {| store := s1; now := now w |})
      as [w2 ->].
    { intros l Hl. apply (Hq l Hl). }
    cbn [andThen app]. destruct (IH w2) as [w3 ->]. eexists; reflexivity.
Qed.

Lemma run_runHandlers_silent {Y} (handlers : list Handler) (message : Message)
    (w : World) :
  logger = None ->
  run (runHandlers (Y := Y) logger handlers message) w
  = (Normal tt, [], handled handlers w message).
Proof.
  intros Hl. revert w.
  induction handlers as [|handler rest IH]; intros w; [reflexivity|].
  cbn [runHandlers]. rewrite run_mbind, run_tryCatch, run_callSync.
  unfold handled. cbn [foldl].
  fold (handled rest
          {| store := (handler message (now w) (store w)).2; now := now w |}
          message).
  destruct (handler message (now w) (store w)) as [[[]|e] s1];
    cbn [orCatch andThen fst snd].
  - rewrite IH. reflexivity.
  - rewrite (run_tell_silent _ _ Hl). cbn [andThen app]. rewrite IH.
    reflexivity.
Qed.

Lemma run_relay_quiet (ms : list Message) (end_ : Completion unit)
    (w : World) :
  quiet logger ->
  exists w',
    run (forAwait (streamOf ms end_) (fun message =>
           tell logger (fun l => Logger.debug l "Received message"
                                   (TypeContext (msg_type message))) ;;
           runHandlers logger messageHandlers message ;;
           Yield message (Ret tt))) w
    = (end_, ms, w').
Proof.
  intros Hq. revert w. induction ms as [|m ms IH]; intros w.
  - cbn [streamOf foldr forAwait]. destruct end_ as [[]|e]; eexists; reflexivity.
  - cbn [streamOf foldr forAwait]. fold (streamOf ms end_).
    rewrite !run_mbind.
    destruct (run_tell_quiet (Y := Message)
                (fun l => Logger.debug l "Received message"
                            (TypeContext (msg_type m))) w) as [w1 ->].
    { intros l Hl. apply (Hq l Hl). }
    cbn [andThen]. rewrite run_mbind.
    destruct (run_runHandlers_quiet (Y := Message) messageHandlers m w1 Hq)
      as [w2 ->].
    cbn [andThen run app]. destruct (IH w2) as [w3 ->].
    eexists; reflexivity.
Qed.

(** X18: a message handler that throws does not disturb the raw query: with
    a logger whose methods return, or with none, the generator yields every
    message of the underlying query, in order, and ends as that query
    ends. *)
Theorem queryRaw_relays_every_message (prompt : string) (ms : list Message)
    (end_ : Completion unit) (w : World) :
  quiet logger ->
  exists w',
    run (queryRaw (fun _ _ => streamOf ms end_) options messageHandlers logger
           prompt) w
    = (end_, ms, w').
Proof.
  intros Hq. unfold queryRaw. rewrite run_mbind.
  destruct (run_tell_quiet (Y := Message)
              (fun l => Logger.info l "Starting query"
                          (QueryContext prompt options)) w) as [w0 ->].
  { intros l Hl. apply (Hq l Hl). }
  cbn [andThen]. rewrite run_mbind.
  destruct (run_relay_quiet ms end_ w0 Hq) as [w1 ->].
  destruct end_ as [[]|e]; cbn [andThen app]; [|eexists; reflexivity].
  destruct (run_tell_quiet (Y := Message)
              (fun l => Logger.info l "Query completed" NoContext) w1)
    as [w2 ->].
  { intros l Hl. apply (Hq l Hl). }
  rewrite app_nil_r. eexists; reflexivity.
Qed.

Lemma run_relay_silent (tms : list (Z * Message)) (last : Z)
    (end_ : Completion unit) (w : World) :
  logger = None ->
  run (forAwait (timedStreamOf tms last end_) (fun message =>
         tell logger (fun l => Logger.debug l "Received message"
                                 (TypeContext (msg_type message))) ;;
         runHandlers logger messageHandlers message ;;
         Yield message (Ret tt))) w
  = (end_, tms.*2, handledAll messageHandlers tms last w).
Proof.
  intros Hl. unfold handledAll. revert w.
  induction tms as [|[d m] tms IH]; intros w.
  - cbn [timedStreamOf foldr forAwait run foldl fmap list_fmap].
    destruct end_ as [[]|e]; reflexivity.
  - cbn [timedStreamOf foldr forAwait run fst snd].
    fold (timedStreamOf tms last end_).
    rewrite !run_mbind, (run_tell_silent _ _ Hl). cbn [andThen].
    rewrite run_mbind, (run_runHandlers_silent _ _ _ Hl).
    cbn [andThen run app]. rewrite IH. reflexivity.
Qed.

(** X19: without a logger every handler is called with every message, at
    the time the message arrives, in the order of the messages and, for
    each message, in the order of registration; a handler that throws
    stops neither the handlers after it nor the messages after it. *)
Theorem queryRaw_runs_every_handler (prompt : string)
    (tms : list (Z * Message)) (last : Z) (end_ : Completion unit)
    (w : World) :
  logger = None ->
  let r := run (queryRaw (fun _ _ => timedStreamOf tms last end_) options
                  messageHandlers logger prompt) w in
  r.1 = (end_, tms.*2)
  /\ store r.2 = store (handledAll messageHandlers tms last w).
Proof.
  intros Hl r. subst r. unfold queryRaw.
  rewrite run_mbind, (run_tell_silent _ _ Hl). cbn [andThen].
  rewrite run_mbind, (run_relay_silent _ _ _ _ Hl).
  destruct end_ as [[]|e]; cbn [andThen]; [|split; reflexivity].
  rewrite (run_tell_silent _ _ Hl), app_nil_r. split; reflexivity.
Qed.

End RawQueryFacts.

Lemma quiet_countingLogger : quiet (Some countingLogger).
Proof.
  intros l [= <-] msg ctx. repeat split; intros t s; reflexivity.
Qed.

Lemma queryRaw_relays_past_pickyHandler :
  quiet (Some countingLogger)
  /\ exists w',
       run (queryRaw
              (fun _ _ => streamOf [AssistantMessage [] None;
                                    UserMessage "ok" None] (Thrown boom))
              ∅ [pickyHandler; pickyHandler] (Some countingLogger) "hi")
         (world0 "hi" ∅)
       = (Thrown boom, [AssistantMessage [] None; UserMessage "ok" None], w').
Proof.
  split; [exact quiet_countingLogger|].
  apply (queryRaw_relays_every_message ∅ [pickyHandler; pickyHandler]
           (Some countingLogger) "hi"
           [AssistantMessage [] None; UserMessage "ok" None] (Thrown boom)
           (world0 "hi" ∅)).
  exact quiet_countingLogger.
Defined.

Lemma queryRaw_runs_pickyHandler_after_a_throw :
  let r := run (queryRaw
                  (fun _ _ => timedStreamOf [(5, AssistantMessage [] None);
                                             (7, UserMessage "ok" None)] 3
                                (Normal tt))
                  ∅ [pickyHandler; pickyHandler] None "hi")
             (world0 "hi" ∅) in
  r.1 = (Normal tt, [AssistantMessage [] None; UserMessage "ok" None])
  /\ trace (store r.2) = [EvEnter 0 "user"; EvEnter 0 "user"].
Proof.
  cbv zeta.
  destruct (queryRaw_runs_every_handler ∅ [pickyHandler; pickyHandler] None
              "hi" [(5, AssistantMessage [] None); (7, UserMessage "ok" None)]
              3 (Normal tt) (world0 "hi" ∅) eq_refl) as [Hr Hs].
  split; [exact Hr|]. rewrite Hs. reflexivity.
Defined.

(** ** The builder and its roles *)

Section BuilderFacts.

Import Roles.

Variable env : Env.

(** Applying a role drops no item of a list of the base options. *)
Lemma applyRole_keeps_list_items (roles : RoleMap) (n k x : string)
    (base o : ClaudeCodeOptions) :
  applyRole env roles n base = Normal o ->
  k ∈ listKeys ->
  x ∈ readList base k -> x ∈ readList o k.
Proof.
  intros H Hk Hx. destruct (get n roles) as [role|] eqn:Hr;
    [|unfold applyRole in H; rewrite Hr in H; discriminate H].
  rewrite (applyRole_overrides _ _ _ _ _ Hr) in H.
  assert (Ho : applyOverrides (overrides role base)
                 (spread (default ∅ (options role)) base) = o)
    by (injection H; intros E; exact E).
  clear H. subst o.
  assert (Hs : spread (default ∅ (options role)) base !! k = base !! k).
  { unfold readList in Hx. destruct (base !! k) as [v|] eqn:Hb.
    - apply lookup_union_Some_l, Hb.
    - inversion Hx. }
  assert (Hcase : forall items : option (list string),
             findOverride k (overrides role base)
             = Some (nonEmpty items,
                     JList (mergeList base k (default [] items))) ->
             x ∈ readList
                   (applyOverrides (overrides role base)
                      (spread (default ∅ (options role)) base)) k).
  { intros items Hf. unfold readList at 1. rewrite lookup_merged, Hf.
    destruct (nonEmpty items).
    - apply elem_of_mergeList. left. exact Hx.
    - rewrite Hs. exact Hx. }
  unfold listKeys in Hk. rewrite !elem_of_cons, elem_of_nil in Hk.
  destruct Hk as [->|[->|[->|[->|[]]]]].
  - apply (Hcase (allowedTools role)). reflexivity.
  - apply (Hcase (deniedTools role)). reflexivity.
  - apply (Hcase (addDirectories role)). reflexivity.
  - apply (Hcase (context role)). reflexivity.
Qed.

Lemma deniesAll_assign (key : string) (value : JsValue) (this : QueryBuilder.t) :
  key <> "deniedTools" ->
  QueryBuilder.deniesAll this ->
  QueryBuilder.deniesAll (QueryBuilder.assign key value this).
Proof.
  intros Hne Hd tool Ht. specialize (Hd tool Ht).
  unfold readList in *. cbn [QueryBuilder.assign QueryBuilder.options].
  rewrite lookup_insert_ne; [exact Hd|exact Hne].
Qed.

Lemma deniesAll_allowTools (tools : list string) (this : QueryBuilder.t) :
  (tools = [] \/ QueryBuilder.deniesAll this) ->
  QueryBuilder.deniesAll (QueryBuilder.allowTools tools this).
Proof.
  intros H. unfold QueryBuilder.allowTools. destruct tools as [|t tools].
  - cbn [length bool_decide]. rewrite bool_decide_eq_true_2 by reflexivity.
    apply deniesAll_assign; [discriminate|].
    intros tool Ht. unfold readList.
    cbn [QueryBuilder.assign QueryBuilder.options].
    rewrite lookup_insert_eq. exact Ht.
  - rewrite bool_decide_eq_false_2 by discriminate.
    apply deniesAll_assign; [discriminate|].
    destruct H as [H|H]; [discriminate H|exact H].
Qed.

Lemma deniesAll_withRole (n : string) (roles : RoleMap) (this : QueryBuilder.t) :
  QueryBuilder.deniesAll this ->
  QueryBuilder.deniesAll (QueryBuilder.withRole env n roles this).2.
Proof.
  intros Hd. unfold QueryBuilder.withRole. cbn [QueryBuilder.options].
  destruct (applyRole env roles n (QueryBuilder.options this)) as [o|e] eqn:Ha;
    cbn [snd]; intros tool Ht; cbn [QueryBuilder.options].
  - apply (applyRole_keeps_list_items _ _ _ _ _ _ Ha).
    + unfold listKeys. rewrite !elem_of_cons. tauto.
    + apply Hd, Ht.
  - apply Hd, Ht.
Qed.

Lemma deniesAll_perform (call : QueryBuilder.Call) (roles : RoleMap)
    (this : QueryBuilder.t) :
  QueryBuilder.is_denyTools call = false ->
  QueryBuilder.deniesAll this ->
  QueryBuilder.deniesAll (QueryBuilder.perform env call roles this).1.2.
Proof.
  intros Hc Hd.
  destruct call; cbn [QueryBuilder.perform fst snd];
    try discriminate Hc;
    try (apply deniesAll_assign; [discriminate|exact Hd]).
  - apply deniesAll_allowTools. right. exact Hd.
  - apply deniesAll_withRole, Hd.
  - unfold QueryBuilder.defineRole. destruct apply; cbn [fst snd];
      [apply deniesAll_withRole, Hd|exact Hd].
Qed.

(** X20: read-only mode outlives roles: once [allowTools()] was called with
    no argument, every tool stays on the deny list through any later calls
    of the builder other than [denyTools], and in particular through roles
    being defined and applied, whether applying succeeds or throws. *)
Theorem read_only_denials_survive (calls : list QueryBuilder.Call)
    (roles : RoleMap) (this : QueryBuilder.t) :
  forallb (fun call => negb (QueryBuilder.is_denyTools call)) calls = true ->
  QueryBuilder.deniesAll
    (QueryBuilder.performAll env calls roles
       (QueryBuilder.allowTools [] this)).1.
Proof.
  intros Hc.
  assert (Hinv : forall st : QueryBuilder.t * RoleMap,
             QueryBuilder.deniesAll st.1 ->
             QueryBuilder.deniesAll
               (QueryBuilder.performAll env calls st.2 st.1).1).
  { unfold QueryBuilder.performAll.
    induction calls as [|call calls IH]; intros [b r] Hd; [exact Hd|].
    cbn [forallb] in Hc. apply andb_prop in Hc. destruct Hc as [Hcall Hc].
    cbn [foldl fst snd].
    pose proof (deniesAll_perform call r b) as Hp.
    destruct (QueryBuilder.perform env call r b) as [[c b'] r'].
    apply (IH Hc (b', r')). apply Hp; [|exact Hd].
    destruct (QueryBuilder.is_denyTools call); [discriminate Hcall|reflexivity]. }
  apply (Hinv (QueryBuilder.allowTools [] this, roles)).
  apply deniesAll_allowTools. left. reflexivity.
Qed.

(** X21: a role that was defined and applied supplies the prompt: after
    [defineRole(role, true)] with a role of non-empty name and non-empty
    default prompt, [query] without a prompt, or with the empty one, passes
    the role's default prompt to the underlying query, together with the
    options that applying the role to the builder's options gave. *)
Theorem defined_role_supplies_prompt (role : RoleConfig) (p : string)
    (prompt : option string) (roles : RoleMap) (this : QueryBuilder.t) :
  truthy (name role) = true ->
  defaultPrompt role = Some p ->
  truthy p = true ->
  truthy_opt prompt = false ->
  exists this' o,
    QueryBuilder.defineRole env role true roles this
    = (Normal tt, this', register role roles)
    /\ applyRole env (register role roles) (name role)
         (QueryBuilder.options this) = Normal o
    /\ QueryBuilder.query env prompt (register role roles) this'
       = Normal (p, o).
Proof.
  intros Hn Hp Ht Hprompt.
  assert (Hg : get (name role) (register role roles) = Some role).
  { unfold get, register. rewrite map_get_set, String.eqb_refl. reflexivity. }
  unfold QueryBuilder.defineRole, QueryBuilder.withRole.
  cbn [QueryBuilder.options QueryBuilder.currentRole].
  rewrite (applyRole_overrides _ _ _ _ _ Hg).
  eexists _, _. split; [reflexivity|]. split; [reflexivity|].
  unfold QueryBuilder.query, QueryBuilder.finalPrompt.
  cbn [QueryBuilder.options QueryBuilder.currentRole].
  rewrite Hprompt. cbn [truthy_opt from_option id]. rewrite Hn.
  unfold getRoleDefaultPrompt. rewrite Hg. cbn [mbind option_bind].
  rewrite Hp. cbn [truthy_opt]. rewrite Ht. reflexivity.
Qed.


End BuilderFacts.

Section BuilderExamples.

Import Roles.

Lemma read_only_denials_survive_codeWriter :
  QueryBuilder.deniesAll
    (QueryBuilder.performAll (stubEnv [])
       [QueryBuilder.WithRole "codeWriter"; QueryBuilder.WithRole "nobody";
        QueryBuilder.DefineRole
          {| name := "auditor"; description := None; defaultPrompt := None;
             options := None; allowedTools := Some ["Read"];
             deniedTools := Some ["Bash"; "Deploy"]; model := None;
             temperature := None; maxTokens := None; timeout := None;
             addDirectories := None; context := None; permissionMode := None;
             debug := None |} true;
        QueryBuilder.AllowTools ["Write"]]
       (initializeBuiltInRoles [])
       (QueryBuilder.allowTools [] QueryBuilder.create)).1.
Proof.
  apply (read_only_denials_survive (stubEnv []) _ (initializeBuiltInRoles [])
           QueryBuilder.create).
  reflexivity.
Defined.

End BuilderExamples.

Section BuilderWitnesses.

Import Roles.

Lemma defined_role_supplies_prompt_auditor :
  exists this' o,
    QueryBuilder.defineRole (stubEnv [])
      {| name := "auditor"; description := None;
         defaultPrompt := Some "Audit this"; options := None;
         allowedTools := Some ["Read"]; deniedTools := None; model := None;
         temperature := None; maxTokens := None; timeout := None;
         addDirectories := None; context := None; permissionMode := None;
         debug := None |} true (initializeBuiltInRoles [])
      (QueryBuilder.withModel "opus" QueryBuilder.create)
    = (Normal tt, this',
       register
         {| name := "auditor"; description := None;
            defaultPrompt := Some "Audit this"; options := None;
            allowedTools := Some ["Read"]; deniedTools := None; model := None;
            temperature := None; maxTokens := None; timeout := None;
            addDirectories := None; context := None; permissionMode := None;
            debug := None |} (initializeBuiltInRoles []))
    /\ applyRole (stubEnv [])
         (register
            {| name := "auditor"; description := None;
               defaultPrompt := Some "Audit this"; options := None;
               allowedTools := Some ["Read"]; deniedTools := None;
               model := None; temperature := None; maxTokens := None;
               timeout := None; addDirectories := None; context := None;
               permissionMode := None; debug := None |}
            (initializeBuiltInRoles []))
         "auditor"
         (QueryBuilder.options
            (QueryBuilder.withModel "opus" QueryBuilder.create))
       = Normal o
    /\ QueryBuilder.query (stubEnv []) (Some "")
         (register
            {| name := "auditor"; description := None;
               defaultPrompt := Some "Audit this"; options := None;
               allowedTools := Some ["Read"]; deniedTools := None;
               model := None; temperature := None; maxTokens := None;
               timeout := None; addDirectories := None; context := None;
               permissionMode := None; debug := None |}
            (initializeBuiltInRoles []))
         this'
       = Normal ("Audit this", o).
Proof.
  apply (defined_role_supplies_prompt (stubEnv [])
           {| name := "auditor"; description := None;
              defaultPrompt := Some "Audit this"; options := None;
              allowedTools := Some ["Read"]; deniedTools := None;
              model := None; temperature := None; maxTokens := None;
              timeout := None; addDirectories := None; context := None;
              permissionMode := None; debug := None |}
           "Audit this" (Some "") (initializeBuiltInRoles [])
           (QueryBuilder.withModel "opus" QueryBuilder.create));
    reflexivity.
Defined.


End BuilderWitnesses.
